(** * The account repository of the database back end

    A shallow embedding of [src/account/account_repository_db.cpp], the
    gateway between the in-memory [AccountInfo] record and the relational
    store, and the properties of its load, reconciliation and persistence
    paths.

    The embedding is organised as follows.
    - [Fixed-width integers]: the C++ integer conversions the gateway performs.
    - [Result sets] and [Statements]: what the gateway exchanges with the store.
    - [Section gateway]: the member functions of [AccountRepositoryDB], written
      in a state monad over the store handle, the logger and the clock, for an
      arbitrary store.
    - [Module Tables]: a reference store with the four tables of the schema,
      on which the statements are given their relational meaning. *)

From stdpp Require Import gmap strings list sorting.
From Stdlib Require Import ZArith Lia.

Local Open Scope Z_scope.

(** ** Fixed-width integers

    Integers are mathematical ([Z]); each conversion to a C++ integer type is
    the reduction the language prescribes. *)

Definition uint16_t (z : Z) : Z := z mod 2 ^ 16.
Definition uint32_t (z : Z) : Z := z mod 2 ^ 32.
Definition uint64_t (z : Z) : Z := z mod 2 ^ 64.

(** [time_t] is a signed 64-bit count of seconds. *)
Definition time_t (z : Z) : Z := (z + 2 ^ 63) mod 2 ^ 64 - 2 ^ 63.

(** ** Result sets *)

Inductive SqlValue : Type :=
| SqlInt (z : Z)
| SqlText (s : string)
| SqlNull.

(** A result handle is a cursor standing on a row: the store hands out a
    handle only for a result set with at least one row, and [next] moves the
    cursor to the following row, if any. *)
Record DBResult : Type := {
  row : gmap string SqlValue;
  pending : list (gmap string SqlValue)
}.

(** [result->getNumber<T>(s)]: the integer of column [s] converted to [T];
    the zero of [T] when the column is missing or holds no number. *)
Definition getNumber (T : Z → Z) (result : DBResult) (s : string) : Z :=
  match row result !! s with
  | Some (SqlInt z) => T z
  | _ => 0
  end.

(** [result->getString(s)] *)
Definition getString (result : DBResult) (s : string) : string :=
  match row result !! s with
  | Some (SqlText t) => t
  | _ => EmptyString
  end.

(** [result->next()] *)
Definition next (result : DBResult) : option DBResult :=
  match pending result with
  | [] => None
  | r :: rs => Some {| row := r; pending := rs |}
  end.

(** [result->countResults()], on a handle whose cursor has not moved. *)
Definition countResults (result : DBResult) : Z :=
  Z.of_nat (S (length (pending result))).

(** ** Statements

    The gateway formats each statement from a fixed text and its arguments;
    a statement is represented by its syntax tree, one constructor per format
    string, the arguments in the order of the placeholders. *)

(** Modelled from the spec: the store's escaping function, interface (a) of
    the store ([Database::escapeString] is not part of the sources): the
    string literal that denotes the given text. *)
Inductive SqlLiteral : Type :=
| Quoted (text : string).

Definition escapeString (s : string) : SqlLiteral := Quoted s.

Inductive Query : Type :=
(* SELECT id, type, premdays, lastday, creation, premdays_purchased,
   0 AS expires FROM accounts WHERE id = {} *)
| SelectAccountByID (id : Z)
(* ... FROM accounts WHERE `{}` = {} *)
| SelectAccountByIdentifier (identifier : string) (value : SqlLiteral)
(* SELECT accounts.id, type, premdays, lastday, creation, premdays_purchased,
   account_sessions.expires FROM accounts INNER JOIN account_sessions
   ON account_sessions.account_id = accounts.id
   WHERE account_sessions.id = {} *)
| SelectAccountBySession (session : SqlLiteral)
(* UPDATE accounts SET type = {}, premdays = {}, lastday = {},
   creation = {}, premdays_purchased = {} WHERE id = {} *)
| UpdateAccount (type premdays lastday creation premdays_purchased id : Z)
(* SELECT id FROM players WHERE account_id = {} AND name = {} *)
| SelectPlayerID (account_id : Z) (name : SqlLiteral)
(* SELECT * FROM accounts WHERE id = {} *)
| SelectAccount (id : Z)
(* SELECT `{}` FROM accounts WHERE id = {} *)
| SelectCoins (column : string) (id : Z)
(* UPDATE accounts SET `{}` = {} WHERE id = {} *)
| UpdateCoins (column : string) (amount id : Z)
(* INSERT INTO coins_transactions
   (account_id, type, coin_type, amount, description) VALUES (...) *)
| InsertCoinsTransaction (account_id type coin_type amount : Z)
                         (description : SqlLiteral)
(* SELECT name, deletion FROM players WHERE account_id = {}
   ORDER BY name ASC *)
| SelectPlayers (account_id : Z).

(** The store, interfaces (b) and (c): a fetch answers with a result handle
    or with none, a statement with its boolean outcome. *)
Class Database (DB : Type) : Type := {
  db_storeQuery : Query → DB → option DBResult * DB;
  db_executeQuery : Query → DB → bool * DB
}.

(** What reaches the store, in order. *)
Inductive Call : Type :=
| Fetch (q : Query)
| Execute (q : Query).

(** The lines of the error log, one constructor per message. *)
Inductive LogLine : Type :=
| FailedToSaveAccount (id : Z)
| FailedToGetCharacter (name : string) (id : Z)
| FailedToGetPassword (id : Z)
| InvalidCoinType (function : string) (type : Z)
| ErrorSettingCoins (id amount : Z)
| ErrorRegisteringCoinTransaction (id type coin_type coins : Z)
                                  (description : SqlLiteral)
| FailedToLoadPlayers (id : Z).

(** ** The account record *)

(** Modelled from the spec: [AccountInfo] (account/account_info.hpp is not
    part of the sources), with the fields of the data model. The integer
    fields hold values of the type [load] reads their column at;
    [premiumRemainingDays], which no column feeds, has the type of
    [premiumDaysPurchased], the field it is compared with and assigned to. *)
Record AccountInfo : Type := {
  id : Z;
  premiumRemainingDays : Z;
  premiumLastDay : Z;
  accountType : Z;
  players : gmap string Z;
  sessionExpires : Z;
  premiumDaysPurchased : Z;
  creationTime : Z
}.

Definition set_id (v : Z) (acc : AccountInfo) : AccountInfo :=
  {| id := v; premiumRemainingDays := premiumRemainingDays acc;
     premiumLastDay := premiumLastDay acc; accountType := accountType acc;
     players := players acc; sessionExpires := sessionExpires acc;
     premiumDaysPurchased := premiumDaysPurchased acc;
     creationTime := creationTime acc |}.

Definition set_premiumRemainingDays (v : Z) (acc : AccountInfo) : AccountInfo :=
  {| id := id acc; premiumRemainingDays := v;
     premiumLastDay := premiumLastDay acc; accountType := accountType acc;
     players := players acc; sessionExpires := sessionExpires acc;
     premiumDaysPurchased := premiumDaysPurchased acc;
     creationTime := creationTime acc |}.

Definition set_premiumLastDay (v : Z) (acc : AccountInfo) : AccountInfo :=
  {| id := id acc; premiumRemainingDays := premiumRemainingDays acc;
     premiumLastDay := v; accountType := accountType acc;
     players := players acc; sessionExpires := sessionExpires acc;
     premiumDaysPurchased := premiumDaysPurchased acc;
     creationTime := creationTime acc |}.

Definition set_accountType (v : Z) (acc : AccountInfo) : AccountInfo :=
  {| id := id acc; premiumRemainingDays := premiumRemainingDays acc;
     premiumLastDay := premiumLastDay acc; accountType := v;
     players := players acc; sessionExpires := sessionExpires acc;
     premiumDaysPurchased := premiumDaysPurchased acc;
     creationTime := creationTime acc |}.

Definition set_players (v : gmap string Z) (acc : AccountInfo) : AccountInfo :=
  {| id := id acc; premiumRemainingDays := premiumRemainingDays acc;
     premiumLastDay := premiumLastDay acc; accountType := accountType acc;
     players := v; sessionExpires := sessionExpires acc;
     premiumDaysPurchased := premiumDaysPurchased acc;
     creationTime := creationTime acc |}.

Definition set_sessionExpires (v : Z) (acc : AccountInfo) : AccountInfo :=
  {| id := id acc; premiumRemainingDays := premiumRemainingDays acc;
     premiumLastDay := premiumLastDay acc; accountType := accountType acc;
     players := players acc; sessionExpires := v;
     premiumDaysPurchased := premiumDaysPurchased acc;
     creationTime := creationTime acc |}.

Definition set_premiumDaysPurchased (v : Z) (acc : AccountInfo) : AccountInfo :=
  {| id := id acc; premiumRemainingDays := premiumRemainingDays acc;
     premiumLastDay := premiumLastDay acc; accountType := accountType acc;
     players := players acc; sessionExpires := sessionExpires acc;
     premiumDaysPurchased := v; creationTime := creationTime acc |}.

Definition set_creationTime (v : Z) (acc : AccountInfo) : AccountInfo :=
  {| id := id acc; premiumRemainingDays := premiumRemainingDays acc;
     premiumLastDay := premiumLastDay acc; accountType := accountType acc;
     players := players acc; sessionExpires := sessionExpires acc;
     premiumDaysPurchased := premiumDaysPurchased acc; creationTime := v |}.

(** [players.try_emplace(...)] of a name and a deletion timestamp: an entry
    already under [name] stays as it is. The gateway reaches it only with a
    deletion timestamp of 0. *)
Definition try_emplace (name : string) (deletion : Z) (m : gmap string Z)
  : gmap string Z :=
  match m !! name with
  | Some _ => m
  | None => <[name := deletion]> m
  end.

(** The coin ledgers of enums/account_coins.hpp. *)
Inductive CoinType : Type := Normal | Tournament | Transferable.

(** ** The gateway *)

Section gateway.
Context {DB : Type} `{!Database DB}.

(** [enumToValue] on [CoinType] (the enumerators' values are declared in
    enums/account_coins.hpp) and the digest [transformToSHA1] of
    utils/tools.hpp are not part of the sources: the gateway is
    parameterised by them. *)
Variable enumToValue : CoinType → Z.
Variable transformToSHA1 : string → string.

(** What a member function can reach: the store behind [g_database()], the
    log behind [g_logger()] and the clock behind [getTimeNow()]. [calls]
    records every statement handed to the store. The clock does not advance
    while one member function runs. *)
Record World : Type := {
  database : DB;
  logger : list LogLine;
  clock : Z;
  calls : list Call
}.

Definition M (A : Type) : Type := World → A * World.

#[global] Instance M_ret : MRet M := λ A (a : A) w, (a, w).
#[global] Instance M_bind : MBind M := λ A B (f : A → M B) (m : M A) w,
  let '(a, w') := m w in f a w'.

(** [g_database().storeQuery(query)] *)
Definition storeQuery (query : Query) : M (option DBResult) := λ w,
  let '(result, db) := db_storeQuery query (database w) in
  (result, {| database := db; logger := logger w; clock := clock w;
              calls := calls w ++ [Fetch query] |}).

(** [g_database().executeQuery(query)] *)
Definition executeQuery (query : Query) : M bool := λ w,
  let '(successful, db) := db_executeQuery query (database w) in
  (successful, {| database := db; logger := logger w; clock := clock w;
                  calls := calls w ++ [Execute query] |}).

(** [g_logger().error(...)] *)
Definition logger_error (line : LogLine) : M () := λ w,
  ((), {| database := database w; logger := logger w ++ [line];
          clock := clock w; calls := calls w |}).

Definition getTimeNow : M Z := λ w, (clock w, w).

(** The constructor's table. Of two initialisers with one key the first
    is kept. *)
Definition coinTypeToColumn : gmap Z string :=
  list_to_map [ (enumToValue Normal, "coins");
                (enumToValue Tournament, "tournament_coins");
                (enumToValue Transferable, "coins_transferable") ].

Definition contains (type : Z) (m : gmap Z string) : bool :=
  bool_decide (is_Some (m !! type)).

Definition save (accInfo : AccountInfo) : M bool :=
  successful ← executeQuery
    (UpdateAccount (accountType accInfo) (premiumRemainingDays accInfo)
       (premiumLastDay accInfo) (creationTime accInfo)
       (premiumDaysPurchased accInfo) (id accInfo));
  (if negb successful
   then logger_error (FailedToSaveAccount (id accInfo))
   else mret ());;
  mret successful.

Definition getCharacterByAccountIdAndName (id : Z) (name : string) : M bool :=
  result ← storeQuery (SelectPlayerID id (escapeString name));
  match result with
  | None =>
      logger_error (FailedToGetCharacter name id);;
      mret false
  | Some result => mret (bool_decide (countResults result = 1))
  end.

Definition getPassword (id : Z) (password : string) : M (bool * string) :=
  result ← storeQuery (SelectAccount id);
  match result with
  | None =>
      logger_error (FailedToGetPassword id);;
      mret (false, password)
  | Some result => mret (true, getString result "password")
  end.

Definition getCoins (id type coins : Z) : M (bool * Z) :=
  if negb (contains type coinTypeToColumn) then
    logger_error (InvalidCoinType "getCoins" type);;
    mret (false, coins)
  else
    result ← storeQuery (SelectCoins (coinTypeToColumn !!! type) id);
    match result with
    | None => mret (false, coins)
    | Some result =>
        mret (true, getNumber uint32_t result (coinTypeToColumn !!! type))
    end.

Definition setCoins (id type amount : Z) : M bool :=
  if negb (contains type coinTypeToColumn) then
    logger_error (InvalidCoinType "setCoins" type);;
    mret false
  else
    successful ← executeQuery
      (UpdateCoins (coinTypeToColumn !!! type) amount id);
    (if negb successful
     then logger_error (ErrorSettingCoins id amount)
     else mret ());;
    mret successful.

Definition registerCoinsTransaction (id type coins coinType : Z)
    (description : string) : M bool :=
  successful ← executeQuery
    (InsertCoinsTransaction id type coinType coins (escapeString description));
  (if negb successful
   then logger_error (ErrorRegisteringCoinTransaction id type coinType coins
                        (escapeString description))
   else mret ());;
  mret successful.

(** The [do ... while (result->next())] loop of [loadAccountPlayers]: the
    body runs on the row under the cursor, then on each pending row. *)
Fixpoint loadAccountPlayers_loop (current : gmap string SqlValue)
    (rest : list (gmap string SqlValue)) (players : gmap string Z)
  : gmap string Z :=
  let result := {| row := current; pending := rest |} in
  let players :=
    if bool_decide (getNumber uint64_t result "deletion" ≠ 0) then players
    else try_emplace (getString result "name")
           (getNumber uint64_t result "deletion") players in
  match rest with
  | [] => players
  | r :: rs => loadAccountPlayers_loop r rs players
  end.

Definition loadAccountPlayers (acc : AccountInfo) : M (bool * AccountInfo) :=
  result ← storeQuery (SelectPlayers (id acc));
  match result with
  | None =>
      logger_error (FailedToLoadPlayers (id acc));;
      mret (false, acc)
  | Some result =>
      mret (true,
            set_players
              (loadAccountPlayers_loop (row result) (pending result)
                 (players acc)) acc)
  end.

Definition setupLoyaltyInfo (acc : AccountInfo) : M AccountInfo :=
  if bool_decide (premiumDaysPurchased acc >= premiumRemainingDays acc)
     && bool_decide (creationTime acc ≠ 0)
  then mret acc
  else
    let acc :=
      if bool_decide (premiumDaysPurchased acc < premiumRemainingDays acc)
      then set_premiumDaysPurchased (premiumRemainingDays acc) acc
      else acc in
    acc ← (if bool_decide (creationTime acc = 0)
           then now ← getTimeNow; mret (set_creationTime (uint32_t now) acc)
           else mret acc);
    save acc;;
    mret acc.

Definition load (query : Query) (acc : AccountInfo) : M (bool * AccountInfo) :=
  result ← storeQuery query;
  match result with
  | None => mret (false, acc)
  | Some result =>
      let acc := set_id (getNumber uint32_t result "id") acc in
      let acc := set_accountType (getNumber uint16_t result "type") acc in
      let acc := set_premiumLastDay (getNumber time_t result "lastday") acc in
      let acc := set_sessionExpires (getNumber time_t result "expires") acc in
      let acc := set_premiumDaysPurchased
                   (getNumber uint32_t result "premdays_purchased") acc in
      let acc := set_creationTime (getNumber uint32_t result "creation") acc in
      now ← getTimeNow;
      now' ← getTimeNow;
      let acc := set_premiumRemainingDays
                   (uint32_t (if bool_decide (premiumLastDay acc > now)
                              then time_t (premiumLastDay acc - now')
                                     `quot` 86400
                              else 0)) acc in
      acc ← setupLoyaltyInfo acc;
      loadAccountPlayers acc
  end.

Definition loadByID (id : Z) (acc : AccountInfo) : M (bool * AccountInfo) :=
  load (SelectAccountByID id) acc.

Definition loadByEmailOrName (oldProtocol : bool) (emailOrName : string)
    (acc : AccountInfo) : M (bool * AccountInfo) :=
  let identifier := if oldProtocol then "name" else "email" in
  load (SelectAccountByIdentifier identifier (escapeString emailOrName)) acc.

Definition loadBySession (sessionKey : string) (acc : AccountInfo)
  : M (bool * AccountInfo) :=
  load (SelectAccountBySession (escapeString (transformToSHA1 sessionKey))) acc.

End gateway.

(** ** A reference store *)

(** Modelled from the spec: the relational store behind [g_database()]
    (database/database.hpp is not part of the sources), with the tables and
    columns of the schema surface the gateway depends on and the
    query-and-fetch contract of the external interfaces: a fetch yields no
    handle when the store cannot be reached or when no row matches, a
    statement reports whether it was carried out. *)
Module Tables.

Record AccountRow : Type := {
  a_id : Z;
  a_name : string;
  a_email : string;
  a_password : string;
  a_type : Z;
  a_premdays : Z;
  a_lastday : Z;
  a_creation : Z;
  a_premdays_purchased : Z;
  a_coins : Z;
  a_tournament_coins : Z;
  a_coins_transferable : Z
}.

Record SessionRow : Type := {
  s_id : string;
  s_account_id : Z;
  s_expires : Z
}.

Record PlayerRow : Type := {
  p_id : Z;
  p_account_id : Z;
  p_name : string;
  p_deletion : Z
}.

Record TransactionRow : Type := {
  t_account_id : Z;
  t_type : Z;
  t_coin_type : Z;
  t_amount : Z;
  t_description : string
}.

(** [reachable]: the connection is up; [writable]: the store accepts
    statements that change rows. *)
Record Store : Type := {
  accounts : list AccountRow;
  account_sessions : list SessionRow;
  players : list PlayerRow;
  coins_transactions : list TransactionRow;
  reachable : bool;
  writable : bool
}.

Definition handle (rows : list (gmap string SqlValue)) : option DBResult :=
  match rows with
  | [] => None
  | r :: rs => Some {| row := r; pending := rs |}
  end.

(** The seven columns the three account look-ups select. *)
Definition account_columns (a : AccountRow) (expires : Z)
  : gmap string SqlValue :=
  list_to_map [ ("id", SqlInt (a_id a)); ("type", SqlInt (a_type a));
                ("premdays", SqlInt (a_premdays a));
                ("lastday", SqlInt (a_lastday a));
                ("creation", SqlInt (a_creation a));
                ("premdays_purchased", SqlInt (a_premdays_purchased a));
                ("expires", SqlInt expires) ].

(** [SELECT *] on accounts. *)
Definition account_all_columns (a : AccountRow) : gmap string SqlValue :=
  list_to_map [ ("id", SqlInt (a_id a)); ("name", SqlText (a_name a));
                ("email", SqlText (a_email a));
                ("password", SqlText (a_password a));
                ("type", SqlInt (a_type a));
                ("premdays", SqlInt (a_premdays a));
                ("lastday", SqlInt (a_lastday a));
                ("creation", SqlInt (a_creation a));
                ("premdays_purchased", SqlInt (a_premdays_purchased a));
                ("coins", SqlInt (a_coins a));
                ("tournament_coins", SqlInt (a_tournament_coins a));
                ("coins_transferable", SqlInt (a_coins_transferable a)) ].

Definition coin_column (column : string) (a : AccountRow) : option Z :=
  if decide (column = "coins") then Some (a_coins a)
  else if decide (column = "tournament_coins") then Some (a_tournament_coins a)
  else if decide (column = "coins_transferable")
       then Some (a_coins_transferable a)
  else None.

(** [WHERE account_id = id AND name = name] on players. *)
Definition owned (id : Z) (name : string) (p : PlayerRow) : bool :=
  bool_decide (p_account_id p = id) && bool_decide (p_name p = name).

Definition by_name : relation PlayerRow :=
  λ p q, String.le (p_name p) (p_name q).

Definition select (q : Query) (st : Store) : list (gmap string SqlValue) :=
  match q with
  | SelectAccountByID id =>
      (λ a, account_columns a 0)
        <$> filter (λ a, a_id a = id) (accounts st)
  | SelectAccountByIdentifier identifier (Quoted value) =>
      if decide (identifier = "name") then
        (λ a, account_columns a 0)
          <$> filter (λ a, a_name a = value) (accounts st)
      else if decide (identifier = "email") then
        (λ a, account_columns a 0)
          <$> filter (λ a, a_email a = value) (accounts st)
      else []
  | SelectAccountBySession (Quoted session) =>
      a ← accounts st;
      s ← filter (λ s, s_account_id s = a_id a ∧ s_id s = session)
            (account_sessions st);
      [account_columns a (s_expires s)]
  | SelectPlayerID id (Quoted name) =>
      (λ p, {[ "id" := SqlInt (p_id p) ]})
        <$> filter (λ p, owned id name p) (players st)
  | SelectAccount id =>
      account_all_columns <$> filter (λ a, a_id a = id) (accounts st)
  | SelectCoins column id =>
      omap (λ a, (λ v, {[ column := SqlInt v ]}) <$> coin_column column a)
        (filter (λ a, a_id a = id) (accounts st))
  | SelectPlayers id =>
      (λ p, list_to_map [ ("name", SqlText (p_name p));
                          ("deletion", SqlInt (p_deletion p)) ])
        <$> merge_sort by_name
              (filter (λ p, p_account_id p = id) (players st))
  | UpdateAccount _ _ _ _ _ _ | UpdateCoins _ _ _
  | InsertCoinsTransaction _ _ _ _ _ => []
  end.

Definition set_accounts (l : list AccountRow) (st : Store) : Store :=
  {| accounts := l; account_sessions := account_sessions st;
     players := players st; coins_transactions := coins_transactions st;
     reachable := reachable st; writable := writable st |}.

Definition set_players (l : list PlayerRow) (st : Store) : Store :=
  {| accounts := accounts st; account_sessions := account_sessions st;
     players := l; coins_transactions := coins_transactions st;
     reachable := reachable st; writable := writable st |}.

(** A character row with another deletion timestamp. *)
Definition with_deletion (deletion : Z) (p : PlayerRow) : PlayerRow :=
  {| p_id := p_id p; p_account_id := p_account_id p; p_name := p_name p;
     p_deletion := deletion |}.

Definition set_coins_transactions (l : list TransactionRow) (st : Store)
  : Store :=
  {| accounts := accounts st; account_sessions := account_sessions st;
     players := players st; coins_transactions := l;
     reachable := reachable st; writable := writable st |}.

(** The row after [UPDATE accounts SET type, premdays, lastday, creation,
    premdays_purchased]. *)
Definition update_account (type premdays lastday creation purchased : Z)
    (a : AccountRow) : AccountRow :=
  {| a_id := a_id a; a_name := a_name a; a_email := a_email a;
     a_password := a_password a; a_type := type; a_premdays := premdays;
     a_lastday := lastday; a_creation := creation;
     a_premdays_purchased := purchased; a_coins := a_coins a;
     a_tournament_coins := a_tournament_coins a;
     a_coins_transferable := a_coins_transferable a |}.

Definition update_coins (column : string) (amount : Z) (a : AccountRow)
  : AccountRow :=
  {| a_id := a_id a; a_name := a_name a; a_email := a_email a;
     a_password := a_password a; a_type := a_type a;
     a_premdays := a_premdays a; a_lastday := a_lastday a;
     a_creation := a_creation a;
     a_premdays_purchased := a_premdays_purchased a;
     a_coins := if decide (column = "coins") then amount else a_coins a;
     a_tournament_coins :=
       if decide (column = "tournament_coins") then amount
       else a_tournament_coins a;
     a_coins_transferable :=
       if decide (column = "coins_transferable") then amount
       else a_coins_transferable a |}.

(** [UPDATE ... WHERE id = id]: every row with that id, and no other. *)
Definition where_id (id : Z) (f : AccountRow → AccountRow)
    (l : list AccountRow) : list AccountRow :=
  (λ a, if decide (a_id a = id) then f a else a) <$> l.

Definition apply (q : Query) (st : Store) : Store :=
  match q with
  | UpdateAccount type premdays lastday creation purchased id =>
      set_accounts
        (where_id id (update_account type premdays lastday creation purchased)
           (accounts st)) st
  | UpdateCoins column amount id =>
      set_accounts (where_id id (update_coins column amount) (accounts st)) st
  | InsertCoinsTransaction id type coin_type amount (Quoted description) =>
      set_coins_transactions
        (coins_transactions st ++
           [ {| t_account_id := id; t_type := type; t_coin_type := coin_type;
                t_amount := amount; t_description := description |} ]) st
  | _ => st
  end.

(** A statement that names a column the table does not have is refused. *)
Definition accepted (q : Query) : bool :=
  match q with
  | UpdateCoins column _ _ =>
      bool_decide
        (column ∈ ["coins"; "tournament_coins"; "coins_transferable"])
  | _ => true
  end.

#[global] Instance store_database : Database Store := {
  db_storeQuery q st :=
    (if reachable st then handle (select q st) else None, st);
  db_executeQuery q st :=
    if reachable st && writable st && accepted q
    then (true, apply q st) else (false, st)
}.

End Tables.

(** * Vocabulary of the statements *)

(** ** The player rows of a result set *)

(** The two columns [loadAccountPlayers] reads from a fetched row. *)
Definition row_deletion (r : gmap string SqlValue) : Z :=
  getNumber uint64_t {| row := r; pending := [] |} "deletion".

Definition row_name (r : gmap string SqlValue) : string :=
  getString {| row := r; pending := [] |} "name".

(** The fetched rows that are not soft-deleted, in the order fetched. *)
Definition surviving (rows : list (gmap string SqlValue))
  : list (gmap string SqlValue) :=
  filter (λ r, row_deletion r = 0) rows.

Definition rows_of (result : DBResult) : list (gmap string SqlValue) :=
  row result :: pending result.

Section vocabulary.
Context {DB : Type} `{!Database DB}.

Implicit Types (w : @World DB) (acc : AccountInfo) (query : Query).

(** The statement [save] formats for a record. *)
Definition save_statement acc : Query :=
  UpdateAccount (accountType acc) (premiumRemainingDays acc)
    (premiumLastDay acc) (creationTime acc) (premiumDaysPurchased acc)
    (id acc).

(** The guard of [setupLoyaltyInfo]. *)
Definition consistent acc : Prop :=
  premiumDaysPurchased acc >= premiumRemainingDays acc ∧ creationTime acc ≠ 0.

#[global] Instance consistent_dec acc : Decision (consistent acc).
Proof. unfold consistent. apply _. Defined.

(** The record reconciliation arrives at past its guard: the purchased
    days raised to the remaining days, a creation time of 0 replaced by
    the clock's reading. *)
Definition corrected (now : Z) acc : AccountInfo :=
  set_creationTime
    (if decide (creationTime acc = 0) then uint32_t now else creationTime acc)
    (set_premiumDaysPurchased
       (Z.max (premiumDaysPurchased acc) (premiumRemainingDays acc)) acc).

(** The world after a fetch that left the store in state [db]. *)
Definition after_fetch query (db : DB) w : World :=
  {| database := db; logger := logger w; clock := clock w;
     calls := calls w ++ [Fetch query] |}.

(** The record after [load] has copied the columns of the row under the
    cursor and recomputed the remaining days. *)
Definition mapped (result : DBResult) (now : Z) acc : AccountInfo :=
  {| id := getNumber uint32_t result "id";
     premiumRemainingDays :=
       uint32_t (if bool_decide (getNumber time_t result "lastday" > now)
                 then time_t (getNumber time_t result "lastday" - now)
                        `quot` 86400
                 else 0);
     premiumLastDay := getNumber time_t result "lastday";
     accountType := getNumber uint16_t result "type";
     players := players acc;
     sessionExpires := getNumber time_t result "expires";
     premiumDaysPurchased := getNumber uint32_t result "premdays_purchased";
     creationTime := getNumber uint32_t result "creation" |}.

End vocabulary.

(** ** A populated store

    Account 7 has five days of premium left at [now], nothing recorded as
    purchased and no creation time; account 3 is consistent. *)
Module Scenario.

Definition now : Z := 1700000000.

Definition enumToValue (c : CoinType) : Z :=
  match c with Normal => 1 | Tournament => 2 | Transferable => 3 end.

(** Stands in for the digest. *)
Definition transformToSHA1 (s : string) : string := String.rev s.

Definition account7 : Tables.AccountRow :=
  {| Tables.a_id := 7; Tables.a_name := "seven";
     Tables.a_email := "seven@example.org"; Tables.a_password := "hunter2";
     Tables.a_type := 1; Tables.a_premdays := 99;
     Tables.a_lastday := now + 432000; Tables.a_creation := 0;
     Tables.a_premdays_purchased := 0; Tables.a_coins := 10;
     Tables.a_tournament_coins := 20; Tables.a_coins_transferable := 30 |}.

Definition account3 : Tables.AccountRow :=
  {| Tables.a_id := 3; Tables.a_name := "three";
     Tables.a_email := "three@example.org"; Tables.a_password := "swordfish";
     Tables.a_type := 2; Tables.a_premdays := 0;
     Tables.a_lastday := now - 86400; Tables.a_creation := 1600000000;
     Tables.a_premdays_purchased := 30; Tables.a_coins := 0;
     Tables.a_tournament_coins := 0; Tables.a_coins_transferable := 0 |}.

Definition characters : list Tables.PlayerRow :=
  [ {| Tables.p_id := 1; Tables.p_account_id := 7; Tables.p_name := "Zed";
       Tables.p_deletion := 0 |};
    {| Tables.p_id := 2; Tables.p_account_id := 7; Tables.p_name := "Abe";
       Tables.p_deletion := 1690000000 |};
    {| Tables.p_id := 3; Tables.p_account_id := 7; Tables.p_name := "Bob";
       Tables.p_deletion := 0 |};
    {| Tables.p_id := 4; Tables.p_account_id := 3; Tables.p_name := "Cyd";
       Tables.p_deletion := 0 |} ].

Definition store : Tables.Store :=
  {| Tables.accounts := [account7; account3];
     Tables.account_sessions :=
       [ {| Tables.s_id := transformToSHA1 "token-of-three";
            Tables.s_account_id := 3; Tables.s_expires := now + 3600 |} ];
     Tables.players := characters;
     Tables.coins_transactions := [];
     Tables.reachable := true;
     Tables.writable := true |}.

(** The same store refusing every statement that changes rows. *)
Definition read_only : Tables.Store :=
  {| Tables.accounts := Tables.accounts store;
     Tables.account_sessions := Tables.account_sessions store;
     Tables.players := Tables.players store;
     Tables.coins_transactions := Tables.coins_transactions store;
     Tables.reachable := true;
     Tables.writable := false |}.

Definition world (st : Tables.Store) : World :=
  {| database := st; logger := []; clock := now; calls := [] |}.

(** A record as a caller passes it in. *)
Definition blank : AccountInfo :=
  {| id := 0; premiumRemainingDays := 0; premiumLastDay := 0;
     accountType := 0; players := ∅; sessionExpires := 0;
     premiumDaysPurchased := 0; creationTime := 0 |}.

(** Account 7 as it stands in memory after reconciliation at [now]. *)
Definition reconciled7 : AccountInfo :=
  {| id := 7; premiumRemainingDays := 5; premiumLastDay := now + 432000;
     accountType := 1; players := ∅; sessionExpires := 0;
     premiumDaysPurchased := 5; creationTime := now |}.

(** The same store before any character was created. *)
Definition no_characters : Tables.Store :=
  {| Tables.accounts := Tables.accounts store;
     Tables.account_sessions := Tables.account_sessions store;
     Tables.players := [];
     Tables.coins_transactions := Tables.coins_transactions store;
     Tables.reachable := true;
     Tables.writable := true |}.

End Scenario.

(** * Properties *)

(** ** Integer conversions *)

Lemma uint32_t_range z : 0 ≤ uint32_t z < 2 ^ 32.
Proof. unfold uint32_t. apply Z.mod_pos_bound. lia. Qed.

Lemma uint32_t_small z : 0 ≤ z < 2 ^ 32 → uint32_t z = z.
Proof. intros. unfold uint32_t. by apply Z.mod_small. Qed.

Lemma time_t_range z : - 2 ^ 63 ≤ time_t z < 2 ^ 63.
Proof.
  unfold time_t.
  pose proof (Z.mod_pos_bound (z + 2 ^ 63) (2 ^ 64)). lia.
Qed.

Lemma time_t_small z : - 2 ^ 63 ≤ z < 2 ^ 63 → time_t z = z.
Proof. intros. unfold time_t. rewrite Z.mod_small; lia. Qed.

Lemma getNumber_uint32_t_range result s :
  0 ≤ getNumber uint32_t result s < 2 ^ 32.
Proof.
  unfold getNumber. destruct (row result !! s) as [[]|];
    auto using uint32_t_range; lia.
Qed.

Lemma getNumber_time_t_range result s :
  - 2 ^ 63 ≤ getNumber time_t result s < 2 ^ 63.
Proof.
  unfold getNumber. destruct (row result !! s) as [[]|];
    auto using time_t_range; lia.
Qed.

(** The quotient the load takes, [(lastDay - now) / 86400] in [time_t] for
    [lastDay > now], is the floor of the rational quotient. *)
Lemma days_quot lastDay now :
  0 ≤ now → now < lastDay < 2 ^ 63 →
  time_t (lastDay - now) `quot` 86400 = (lastDay - now) `div` 86400.
Proof.
  intros. rewrite time_t_small by lia. apply Z.quot_div_nonneg; lia.
Qed.

(** ** The try_emplace fold *)

Lemma try_emplace_union name deletion (m : gmap string Z) :
  try_emplace name deletion m = m ∪ {[ name := deletion ]}.
Proof.
  unfold try_emplace. apply map_eq. intros k.
  destruct (m !! name) eqn:E.
  - rewrite lookup_union. destruct (decide (name = k)) as [<-|].
    + rewrite E, lookup_singleton_eq. done.
    + rewrite lookup_singleton_ne by done. by destruct (m !! k).
  - rewrite lookup_union. destruct (decide (name = k)) as [<-|].
    + rewrite lookup_insert_eq, E, lookup_singleton_eq. done.
    + rewrite lookup_insert_ne, lookup_singleton_ne by done.
      by destruct (m !! k).
Qed.

Lemma foldl_try_emplace {A} (name : A → string) (deletion : A → Z)
    (l : list A) (m : gmap string Z) :
  foldl (λ m x, try_emplace (name x) (deletion x) m) m l
  = m ∪ list_to_map ((λ x, (name x, deletion x)) <$> l).
Proof.
  revert m. induction l as [|x l IH]; intros m; csimpl.
  - by rewrite (right_id_L ∅ (∪)).
  - rewrite IH, try_emplace_union, <- (assoc_L (∪)).
    f_equal. by rewrite insert_union_singleton_l.
Qed.

(** In a list of entries the first one under a key is the one looked up. *)
Lemma list_to_map_first {A} (name : A → string) (deletion : A → Z)
    (before after : list A) (x : A) :
  (∀ y, y ∈ before → name y ≠ name x) →
  (list_to_map ((λ x, (name x, deletion x)) <$> before ++ x :: after)
     : gmap string Z) !! name x = Some (deletion x).
Proof.
  induction before as [|y before IH]; intros Hfresh; csimpl.
  - apply lookup_insert_eq.
  - rewrite lookup_insert_ne by (apply Hfresh; left).
    apply IH. intros z Hz. apply Hfresh. by right.
Qed.

(** ** Order under filtering *)

Lemma Sorted_fmap_filter {A B} (R : relation B) `{!Transitive R} (f : A → B)
    (P : A → Prop) `{∀ x, Decision (P x)} (l : list A) :
  Sorted R (f <$> l) → Sorted R (f <$> filter P l).
Proof.
  intros Hs%Sorted_StronglySorted; [|done]. apply StronglySorted_Sorted.
  induction l as [|x l IH]; [done|].
  rewrite fmap_cons in Hs. apply StronglySorted_inv in Hs as [Hl Hx].
  rewrite filter_cons. case_decide; [|by apply IH].
  rewrite fmap_cons. constructor; [by apply IH|].
  rewrite Forall_fmap in *. rewrite Forall_forall in *.
  intros y [_ Hy]%list_elem_of_filter. by apply Hx.
Qed.

Section gateway_facts.
Context {DB : Type} `{!Database DB}.

Implicit Types (w : @World DB) (acc : AccountInfo) (query : Query).

(** The loop in the terms of the source: the body on the row under the
    cursor, then again as long as [next] finds a row. *)
Lemma loadAccountPlayers_loop_next result (m : gmap string Z) :
  loadAccountPlayers_loop (row result) (pending result) m =
  let m' :=
    if bool_decide (getNumber uint64_t result "deletion" ≠ 0) then m
    else try_emplace (getString result "name")
           (getNumber uint64_t result "deletion") m in
  match next result with
  | Some result' => loadAccountPlayers_loop (row result') (pending result') m'
  | None => m'
  end.
Proof. by destruct result as [r [|r' rs]]. Qed.

Lemma loadAccountPlayers_loop_foldl current rest (m : gmap string Z) :
  loadAccountPlayers_loop current rest m =
  foldl (λ m r, try_emplace (row_name r) (row_deletion r) m) m
    (surviving (current :: rest)).
Proof.
  revert current m. induction rest as [|r rs IH]; intros current m.
  - unfold surviving. rewrite filter_cons. simpl.
    fold (row_deletion current). fold (row_name current).
    case_bool_decide; case_decide; done.
  - unfold surviving. rewrite filter_cons.
    cbn [loadAccountPlayers_loop]. rewrite IH. unfold getNumber, getString.
    cbn [row].
    fold (getNumber uint64_t {| row := current; pending := [] |} "deletion").
    fold (row_deletion current).
    fold (getString {| row := current; pending := [] |} "name").
    fold (row_name current).
    case_bool_decide; case_decide; done.
Qed.

(** *** Running [save] *)


Lemma save_run acc w successful db :
  db_executeQuery (save_statement acc) (database w) = (successful, db) →
  save acc w =
  (successful,
   {| database := db;
      logger := logger w ++
                (if successful then [] else [FailedToSaveAccount (id acc)]);
      clock := clock w;
      calls := calls w ++ [Execute (save_statement acc)] |}).
Proof.
  intros E. unfold save, mbind, M_bind, executeQuery. cbn.
  unfold save_statement in E. rewrite E.
  destruct successful; cbn; [by rewrite (right_id_L [] (++))|done].
Qed.

(** *** Running [setupLoyaltyInfo] *)


Lemma setupLoyaltyInfo_consistent acc w :
  consistent acc → setupLoyaltyInfo acc w = (acc, w).
Proof.
  intros [Hp Hc]. unfold setupLoyaltyInfo.
  rewrite !bool_decide_eq_true_2 by done. done.
Qed.

(** Past the guard: the record that is written back, and the world after
    the write. *)
Lemma setupLoyaltyInfo_inconsistent acc w :
  ¬ consistent acc →
  ∃ acc',
    setupLoyaltyInfo acc w = (acc', (save acc' w).2) ∧
    premiumDaysPurchased acc' =
      Z.max (premiumDaysPurchased acc) (premiumRemainingDays acc) ∧
    creationTime acc' =
      (if decide (creationTime acc = 0) then uint32_t (clock w)
       else creationTime acc) ∧
    id acc' = id acc ∧
    premiumRemainingDays acc' = premiumRemainingDays acc ∧
    premiumLastDay acc' = premiumLastDay acc ∧
    accountType acc' = accountType acc ∧
    players acc' = players acc ∧
    sessionExpires acc' = sessionExpires acc.
Proof.
  intros Hn. unfold setupLoyaltyInfo.
  assert (bool_decide (premiumDaysPurchased acc >= premiumRemainingDays acc)
          && bool_decide (creationTime acc ≠ 0) = false) as ->.
  { apply not_true_is_false. intros [Hp Hc]%andb_true_iff.
    apply bool_decide_eq_true in Hp, Hc. by apply Hn. }
  destruct acc as [i r l t p e d c]; cbn in *.
  unfold mbind, M_bind, getTimeNow, mret, M_ret.
  repeat (case_bool_decide; cbn in * ); repeat case_decide;
    try lia;
    (eexists; split;
     [ match goal with
       | |- context [save ?a w] =>
           destruct (save a w) as [b w0] eqn:E;
           change w0 with ((b, w0).2); rewrite <- E
       end; reflexivity
     | cbn; repeat split; lia ]).
Qed.

Lemma setupLoyaltyInfo_corrected acc w :
  ¬ consistent acc →
  setupLoyaltyInfo acc w =
  (corrected (clock w) acc, (save (corrected (clock w) acc) w).2).
Proof.
  intros Hn.
  destruct (setupLoyaltyInfo_inconsistent acc w Hn)
    as (acc' & -> & Hp & Hc & Hi & Hr & Hl & Ht & Hpl & He).
  assert (acc' = corrected (clock w) acc) as ->; [|done].
  destruct acc', acc; cbn in *.
  unfold corrected, set_creationTime, set_premiumDaysPurchased; cbn.
  congruence.
Qed.

(** *** Running a fetch *)


Lemma storeQuery_run query w result db :
  db_storeQuery query (database w) = (result, db) →
  storeQuery query w = (result, after_fetch query db w).
Proof. intros E. unfold storeQuery. by rewrite E. Qed.

Lemma loadAccountPlayers_none acc w db :
  db_storeQuery (SelectPlayers (id acc)) (database w) = (None, db) →
  loadAccountPlayers acc w =
  ((false, acc),
   {| database := db; logger := logger w ++ [FailedToLoadPlayers (id acc)];
      clock := clock w;
      calls := calls w ++ [Fetch (SelectPlayers (id acc))] |}).
Proof.
  intros E. unfold loadAccountPlayers, mbind, M_bind.
  by rewrite (storeQuery_run _ _ _ _ E).
Qed.

Lemma loadAccountPlayers_some acc w result db :
  db_storeQuery (SelectPlayers (id acc)) (database w) = (Some result, db) →
  loadAccountPlayers acc w =
  ((true,
    set_players
      (foldl (λ m r, try_emplace (row_name r) (row_deletion r) m)
         (players acc) (surviving (rows_of result))) acc),
   after_fetch (SelectPlayers (id acc)) db w).
Proof.
  intros E. unfold loadAccountPlayers, mbind, M_bind.
  rewrite (storeQuery_run _ _ _ _ E). cbn.
  by rewrite loadAccountPlayers_loop_foldl.
Qed.

(** *** Running [load] *)


Lemma load_none query acc w db :
  db_storeQuery query (database w) = (None, db) →
  load query acc w = ((false, acc), after_fetch query db w).
Proof.
  intros E. unfold load, mbind, M_bind.
  by rewrite (storeQuery_run _ _ _ _ E).
Qed.

Lemma load_some query acc w result db :
  db_storeQuery query (database w) = (Some result, db) →
  load query acc w =
  (let '(acc', w') :=
     setupLoyaltyInfo (mapped result (clock w) acc) (after_fetch query db w)
   in loadAccountPlayers acc' w').
Proof.
  intros E. unfold load, mbind, M_bind.
  by rewrite (storeQuery_run _ _ _ _ E).
Qed.

(** *** What reconciliation and the player fetch leave in place *)

Lemma save_clock acc w : clock (save acc w).2 = clock w.
Proof.
  destruct (db_executeQuery (save_statement acc) (database w)) as [b db] eqn:E.
  by rewrite (save_run _ _ _ _ E).
Qed.

Lemma setupLoyaltyInfo_clock acc w : clock (setupLoyaltyInfo acc w).2 = clock w.
Proof.
  destruct (decide (consistent acc)) as [Hc|Hn].
  - by rewrite setupLoyaltyInfo_consistent.
  - destruct (setupLoyaltyInfo_inconsistent acc w Hn) as (acc' & -> & _).
    apply save_clock.
Qed.

Lemma setupLoyaltyInfo_establishes acc w :
  uint32_t (clock w) ≠ 0 → consistent (setupLoyaltyInfo acc w).1.
Proof.
  intros Hclock. destruct (decide (consistent acc)) as [Hc|Hn].
  - by rewrite setupLoyaltyInfo_consistent.
  - destruct (setupLoyaltyInfo_inconsistent acc w Hn)
      as (acc' & -> & Hp & Hcr & _ & Hr & _).
    cbn. split.
    + rewrite Hp, Hr. lia.
    + rewrite Hcr. by case_decide.
Qed.

Lemma setupLoyaltyInfo_frame acc w :
  let acc' := (setupLoyaltyInfo acc w).1 in
  id acc' = id acc ∧ premiumRemainingDays acc' = premiumRemainingDays acc ∧
  premiumLastDay acc' = premiumLastDay acc ∧
  accountType acc' = accountType acc ∧ players acc' = players acc ∧
  sessionExpires acc' = sessionExpires acc.
Proof.
  destruct (decide (consistent acc)) as [Hc|Hn].
  - by rewrite setupLoyaltyInfo_consistent.
  - destruct (setupLoyaltyInfo_inconsistent acc w Hn)
      as (acc' & -> & _ & _ & ? & ? & ? & ? & ? & ?).
    done.
Qed.

Lemma loadAccountPlayers_frame acc w :
  ∃ m, (loadAccountPlayers acc w).1.2 = set_players m acc.
Proof.
  destruct (db_storeQuery (SelectPlayers (id acc)) (database w))
    as [[result|] db] eqn:E.
  - rewrite (loadAccountPlayers_some _ _ _ _ E). eauto.
  - rewrite (loadAccountPlayers_none _ _ _ E). exists (players acc).
    by destruct acc.
Qed.

(** A load that reports success went through all of its steps. *)
Lemma load_true_inv query acc w acc' w' :
  load query acc w = ((true, acc'), w') →
  ∃ result db m,
    db_storeQuery query (database w) = (Some result, db) ∧
    acc' = set_players m
             (setupLoyaltyInfo (mapped result (clock w) acc)
                (after_fetch query db w)).1.
Proof.
  intros Hload.
  destruct (db_storeQuery query (database w)) as [[result|] db] eqn:E.
  - rewrite (load_some _ _ _ _ _ E) in Hload.
    destruct (setupLoyaltyInfo _ _) as [acc1 w1] eqn:Es.
    destruct (loadAccountPlayers_frame acc1 w1) as [m Hm].
    rewrite Hload in Hm. cbn in Hm. subst acc'. exists result, db, m.
    by rewrite Es.
  - rewrite (load_none _ _ _ _ E) in Hload. done.
Qed.

(** A load that finds an inconsistent record, step by step: the account
    fetch, the write-back with whatever outcome, the player fetch. *)
Lemma load_reconciles query acc w result db1 saved db2 presult db3 :
  let acc1 := mapped result (clock w) acc in
  let acc2 := corrected (clock w) acc1 in
  db_storeQuery query (database w) = (Some result, db1) →
  ¬ consistent acc1 →
  db_executeQuery (save_statement acc2) db1 = (saved, db2) →
  db_storeQuery (SelectPlayers (id acc2)) db2 = (Some presult, db3) →
  load query acc w =
  ((true,
    set_players
      (foldl (λ m r, try_emplace (row_name r) (row_deletion r) m)
         (players acc) (surviving (rows_of presult))) acc2),
   {| database := db3;
      logger := logger w ++
                (if saved then [] else [FailedToSaveAccount (id acc2)]);
      clock := clock w;
      calls := calls w ++ [Fetch query; Execute (save_statement acc2);
                           Fetch (SelectPlayers (id acc2))] |}).
Proof.
  intros acc1 acc2 Ea Hn Es Ep.
  rewrite (load_some _ _ _ _ _ Ea). fold acc1.
  rewrite (setupLoyaltyInfo_corrected _ _ Hn).
  change (clock (after_fetch query db1 w)) with (clock w). fold acc2.
  rewrite (save_run acc2 (after_fetch query db1 w) saved db2) by done.
  cbn [snd].
  erewrite loadAccountPlayers_some by exact Ep.
  unfold after_fetch; cbn. by rewrite <- !(assoc_L (++)).
Qed.

End gateway_facts.

(** ** Loyalty reconciliation *)

Section reconciliation.
Context {DB : Type} `{!Database DB}.

Implicit Types (w : @World DB) (acc : AccountInfo) (query : Query).

(** C3. Once [setupLoyaltyInfo] has run on a record, and hence after every
    load that reports success, premiumDaysPurchased is at least
    premiumRemainingDays and creationTime is not 0. The clock is read into
    the 32-bit creationTime; it is assumed not to read 0 there. *)
Theorem setupLoyaltyInfo_invariant acc w :
  uint32_t (clock w) ≠ 0 →
  (let acc' := (setupLoyaltyInfo acc w).1 in
   premiumDaysPurchased acc' >= premiumRemainingDays acc' ∧
   creationTime acc' ≠ 0) ∧
  (∀ query acc' w',
     load query acc w = ((true, acc'), w') →
     premiumDaysPurchased acc' >= premiumRemainingDays acc' ∧
     creationTime acc' ≠ 0).
Proof.
  intros Hclock. split.
  - exact (setupLoyaltyInfo_establishes acc w Hclock).
  - intros query acc' w' Hload.
    destruct (load_true_inv _ _ _ _ _ Hload) as (result & db & m & _ & ->).
    exact (setupLoyaltyInfo_establishes _ (after_fetch query db w) Hclock).
Qed.

(** C4. Reconciliation is idempotent: on a record with
    premiumDaysPurchased ≥ premiumRemainingDays and creationTime ≠ 0,
    [setupLoyaltyInfo] returns the record as it is and leaves the store,
    the log and the list of issued statements as they are; so does a
    second run after the first. *)
Theorem setupLoyaltyInfo_idempotent acc w :
  premiumDaysPurchased acc >= premiumRemainingDays acc →
  creationTime acc ≠ 0 →
  setupLoyaltyInfo acc w = (acc, w) ∧
  (acc' ← setupLoyaltyInfo acc; setupLoyaltyInfo acc') w = (acc, w).
Proof.
  intros Hp Hc.
  assert (setupLoyaltyInfo acc w = (acc, w)) as Hrun
    by (by apply setupLoyaltyInfo_consistent).
  split; [done|].
  unfold mbind, M_bind. by rewrite Hrun.
Qed.

(** Whatever the record, a second run right after a first finds it
    consistent and does nothing. *)
Lemma setupLoyaltyInfo_twice acc w :
  uint32_t (clock w) ≠ 0 →
  (acc' ← setupLoyaltyInfo acc; setupLoyaltyInfo acc') w
  = setupLoyaltyInfo acc w.
Proof.
  intros Hclock. unfold mbind, M_bind.
  pose proof (setupLoyaltyInfo_establishes acc w Hclock) as Hc.
  destruct (setupLoyaltyInfo acc w) as [acc' w'].
  by apply setupLoyaltyInfo_consistent.
Qed.

End reconciliation.

(** ** The load path *)

Lemma remaining_days_floor lastDay now :
  0 ≤ now → - 2 ^ 63 ≤ lastDay < 2 ^ 63 →
  (if bool_decide (lastDay > now)
   then time_t (lastDay - now) `quot` 86400 else 0)
  = Z.max 0 ((lastDay - now) `div` 86400).
Proof.
  intros Hnow Hrange. case_bool_decide as Hlt.
  - rewrite days_quot by lia.
    pose proof (Z.div_pos (lastDay - now) 86400). lia.
  - pose proof (Z.div_le_mono (lastDay - now) 0 86400).
    rewrite Z.div_0_l in * by lia. lia.
Qed.

Section loading.
Context {DB : Type} `{!Database DB}.

Implicit Types (w : @World DB) (acc : AccountInfo) (query : Query).

(** The remaining days of a loaded record, in terms of its expiry. *)
Lemma load_days query acc w acc' w' :
  0 ≤ clock w →
  load query acc w = ((true, acc'), w') →
  (∃ result db,
     db_storeQuery query (database w) = (Some result, db) ∧
     premiumLastDay acc' = getNumber time_t result "lastday") ∧
  premiumRemainingDays acc' =
    uint32_t (Z.max 0 ((premiumLastDay acc' - clock w) `div` 86400)).
Proof.
  intros Hnow Hload.
  destruct (load_true_inv _ _ _ _ _ Hload) as (result & db & m & E & ->).
  destruct (setupLoyaltyInfo_frame (mapped result (clock w) acc)
              (after_fetch query db w)) as (_ & Hr & Hl & _).
  cbn in *. rewrite Hr, Hl. split; [by eauto|].
  by rewrite remaining_days_floor
    by auto using getNumber_time_t_range.
Qed.

(** C2. After a load that reports success premiumRemainingDays is
    max(0, floor((premiumLastDay - now) / 86400)), held in 32 bits: it is
    that number whenever the number fits, 0 for an expiry in the past or
    now, 0 for an expiry 86399 seconds ahead and 1 for one 86400 seconds
    ahead. It is computed from the fetched lastday column and the clock
    only. The clock is assumed not to read a time before the epoch. *)
Theorem load_premiumRemainingDays query acc w acc' w' :
  0 ≤ clock w →
  load query acc w = ((true, acc'), w') →
  let now := clock w in
  let days := Z.max 0 ((premiumLastDay acc' - now) `div` 86400) in
  premiumRemainingDays acc' = uint32_t days ∧
  (days < 2 ^ 32 → premiumRemainingDays acc' = days) ∧
  (premiumLastDay acc' ≤ now → premiumRemainingDays acc' = 0) ∧
  (premiumLastDay acc' = now + 86399 → premiumRemainingDays acc' = 0) ∧
  (premiumLastDay acc' = now + 86400 → premiumRemainingDays acc' = 1) ∧
  (∃ result db,
     db_storeQuery query (database w) = (Some result, db) ∧
     premiumLastDay acc' = getNumber time_t result "lastday").
Proof.
  intros Hnow Hload now days.
  destruct (load_days _ _ _ _ _ Hnow Hload) as [Hfetch Hdays].
  fold now days in Hdays.
  assert (days < 2 ^ 32 → premiumRemainingDays acc' = days) as Hfit.
  { intros. rewrite Hdays. apply uint32_t_small. subst days. lia. }
  repeat split; try done.
  - intros Hpast. assert (days = 0) as Hz.
    { subst days.
      pose proof (Z.div_le_mono (premiumLastDay acc' - now) 0 86400).
      rewrite Z.div_0_l in * by lia. lia. }
    rewrite Hfit; lia.
  - intros Heq. assert (days = 0) as Hz.
    { subst days. rewrite Heq.
      by replace (now + 86399 - now) with 86399 by lia. }
    rewrite Hfit; lia.
  - intros Heq. assert (days = 1) as Hz.
    { subst days. rewrite Heq.
      by replace (now + 86400 - now) with 86400 by lia. }
    rewrite Hfit; lia.
Qed.

(** C1, amended. A load whose account row has lastday five days (432000
    seconds)
    ahead of the clock, premdays_purchased 0 and creation 0, and whose
    player fetch yields a handle, reports success with
    premiumRemainingDays 5, premiumDaysPurchased 5 and creationTime the
    clock's reading; between the account fetch and the player fetch it
    hands the store one statement, the write-back of [save]. *)
Theorem load_five_days query acc w result db1 saved db2 presult db3 :
  let now := clock w in
  let i := getNumber uint32_t result "id" in
  let t := getNumber uint16_t result "type" in
  let write_back := UpdateAccount t 5 (now + 432000) now 5 i in
  0 ≤ now < 2 ^ 32 →
  db_storeQuery query (database w) = (Some result, db1) →
  row result !! "lastday" = Some (SqlInt (now + 432000)) →
  row result !! "premdays_purchased" = Some (SqlInt 0) →
  row result !! "creation" = Some (SqlInt 0) →
  db_executeQuery write_back db1 = (saved, db2) →
  db_storeQuery (SelectPlayers i) db2 = (Some presult, db3) →
  ∃ acc' w',
    load query acc w = ((true, acc'), w') ∧
    premiumRemainingDays acc' = 5 ∧
    premiumDaysPurchased acc' = 5 ∧
    creationTime acc' = now ∧
    calls w' = calls w ++ [Fetch query; Execute write_back;
                           Fetch (SelectPlayers i)].
Proof.
  intros now i t write_back Hnow Ea Hlast Hpurchased Hcreation Es Ep.
  set (acc1 := mapped result now acc).
  assert (premiumLastDay acc1 = now + 432000) as Hl.
  { cbn. unfold getNumber. rewrite Hlast. apply time_t_small. lia. }
  assert (premiumRemainingDays acc1 = 5) as Hr.
  { cbn. unfold getNumber. rewrite Hlast.
    rewrite (time_t_small (now + 432000)) by lia.
    rewrite bool_decide_eq_true_2 by lia.
    by replace (now + 432000 - now) with 432000 by lia. }
  assert (premiumDaysPurchased acc1 = 0) as Hp
    by (cbn; unfold getNumber; by rewrite Hpurchased).
  assert (creationTime acc1 = 0) as Hc
    by (cbn; unfold getNumber; by rewrite Hcreation).
  assert (¬ consistent acc1) as Hn by (intros [? ?]; lia).
  assert (save_statement (corrected now acc1) = write_back) as Hs.
  { unfold save_statement, corrected. cbn [set_creationTime
      set_premiumDaysPurchased accountType premiumRemainingDays
      premiumLastDay creationTime premiumDaysPurchased id].
    rewrite Hl, Hr, Hp, Hc. cbn. by rewrite uint32_t_small. }
  eexists _, _. split.
  - eapply (load_reconciles query acc w result db1 saved db2 presult db3);
      try done; fold now acc1; by rewrite ?Hs.
  - fold now acc1. rewrite Hs. unfold corrected.
    cbn [set_players set_creationTime set_premiumDaysPurchased
         premiumRemainingDays premiumDaysPurchased creationTime calls id].
    rewrite Hr, Hp, Hc. rewrite decide_True by done.
    by rewrite uint32_t_small.
Qed.

(** C10. The write-back of reconciliation is issued and its outcome
    dropped: when the fetched record is inconsistent and the player fetch
    yields a handle, the load reports success and returns the corrected
    record (premiumDaysPurchased raised, creationTime filled in) whether
    [save] succeeded or failed; a failure only leaves a line in the log. *)
Theorem load_ignores_save_outcome query acc w result db1 saved db2 presult
    db3 :
  let now := clock w in
  let acc1 := mapped result now acc in
  let acc2 := corrected now acc1 in
  db_storeQuery query (database w) = (Some result, db1) →
  ¬ (premiumDaysPurchased acc1 >= premiumRemainingDays acc1
     ∧ creationTime acc1 ≠ 0) →
  db_executeQuery (save_statement acc2) db1 = (saved, db2) →
  db_storeQuery (SelectPlayers (id acc2)) db2 = (Some presult, db3) →
  ∃ acc' w',
    load query acc w = ((true, acc'), w') ∧
    premiumDaysPurchased acc' =
      Z.max (getNumber uint32_t result "premdays_purchased")
            (premiumRemainingDays acc') ∧
    creationTime acc' =
      (if decide (getNumber uint32_t result "creation" = 0)
       then uint32_t now else getNumber uint32_t result "creation") ∧
    logger w' =
      logger w ++ (if saved then [] else [FailedToSaveAccount (id acc')]) ∧
    calls w' = calls w ++ [Fetch query; Execute (save_statement acc2);
                           Fetch (SelectPlayers (id acc'))].
Proof.
  intros now acc1 acc2 Ea Hn Es Ep.
  eexists _, _. split.
  - by eapply (load_reconciles query acc w result db1 saved db2 presult db3).
  - done.
Qed.

End loading.

(** Account 7 before any of its characters exists: the account row is
    fetched with lastday five days ahead, premdays_purchased 0 and
    creation 0, the record gets 5, 5 and the clock's reading and is written
    back once, and yet the load reports failure, the player fetch having
    yielded no handle. *)
Lemma load_account7_no_characters :
  let w := Scenario.world Scenario.no_characters in
  let run := load (SelectAccountByID 7) Scenario.blank w in
  (∃ result,
     db_storeQuery (SelectAccountByID 7) (database w)
     = (Some result, Scenario.no_characters) ∧
     row result !! "lastday" = Some (SqlInt (clock w + 432000)) ∧
     row result !! "premdays_purchased" = Some (SqlInt 0) ∧
     row result !! "creation" = Some (SqlInt 0)) ∧
  run.1.1 = false ∧
  premiumRemainingDays run.1.2 = 5 ∧
  premiumDaysPurchased run.1.2 = 5 ∧
  creationTime run.1.2 = clock w ∧
  calls run.2 =
    [ Fetch (SelectAccountByID 7);
      Execute (UpdateAccount 1 5 (clock w + 432000) (clock w) 5 7);
      Fetch (SelectPlayers 7) ].
Proof.
  split.
  - exists {| row := Tables.account_columns Scenario.account7 0;
              pending := [] |}.
    by vm_compute.
  - by vm_compute.
Qed.

(** The claim that every load of such an account succeeds fails at the
    account and store above. *)
Lemma load_five_days_succeeds_refuted :
  ¬ (∀ query acc (w : @World Tables.Store) result db1,
       0 ≤ clock w < 2 ^ 32 →
       db_storeQuery query (database w) = (Some result, db1) →
       row result !! "lastday" = Some (SqlInt (clock w + 432000)) →
       row result !! "premdays_purchased" = Some (SqlInt 0) →
       row result !! "creation" = Some (SqlInt 0) →
       ∃ acc' w',
         load query acc w = ((true, acc'), w') ∧
         premiumRemainingDays acc' = 5 ∧
         premiumDaysPurchased acc' = 5 ∧
         creationTime acc' = clock w).
Proof.
  intros Hclaim.
  destruct load_account7_no_characters
    as [(result & Hfetch & Hl & Hp & Hc) (Hfalse & _)].
  assert (0 ≤ clock (Scenario.world Scenario.no_characters) < 2 ^ 32)
    as Hclock by (vm_compute; split; [discriminate|reflexivity]).
  destruct (Hclaim (SelectAccountByID 7) Scenario.blank
              (Scenario.world Scenario.no_characters) result
              Scenario.no_characters Hclock Hfetch Hl Hp Hc)
    as (acc' & w' & Hrun & _).
  rewrite Hrun in Hfalse. discriminate Hfalse.
Qed.

(** ** Coins *)

Section coins.
Context {DB : Type} `{!Database DB}.
Variable enumToValue : CoinType → Z.

Implicit Types (w : @World DB).

Lemma coinTypeToColumn_unknown type :
  (∀ c, type ≠ enumToValue c) →
  contains type (coinTypeToColumn enumToValue) = false.
Proof.
  intros Hne. unfold contains, coinTypeToColumn. cbn.
  apply bool_decide_eq_false_2. rewrite <- eq_None_not_Some.
  rewrite !lookup_insert_ne by (apply not_eq_sym, Hne). apply lookup_empty.
Qed.

(** C6. For a coin type that is none of the three ledgers, [getCoins] and
    [setCoins] report failure, write one line to the error log, hand no
    statement to the store and leave the store, and the caller's balance,
    as they were. *)
Theorem coins_unknown_type id type coins amount w :
  (∀ c, type ≠ enumToValue c) →
  let logged function :=
    {| database := database w;
       logger := logger w ++ [InvalidCoinType function type];
       clock := clock w; calls := calls w |} in
  getCoins enumToValue id type coins w = ((false, coins), logged "getCoins") ∧
  setCoins enumToValue id type amount w = (false, logged "setCoins").
Proof.
  intros Hne logged. unfold getCoins, setCoins.
  by rewrite (coinTypeToColumn_unknown type Hne).
Qed.

End coins.

(** ** Look-ups that find nothing *)

Lemma filter_none {A} (P : A → Prop) `{∀ x, Decision (P x)} (l : list A) :
  (∀ x, x ∈ l → ¬ P x) → filter P l = [].
Proof.
  intros Hnone. destruct (filter P l) as [|x k] eqn:E; [done|].
  assert (x ∈ filter P l) as Hx by (rewrite E; left).
  apply list_elem_of_filter in Hx as [HP Hl]. by destruct (Hnone x Hl).
Qed.

Lemma select_session_none (st : Tables.Store) (session : string) :
  (∀ s, s ∈ Tables.account_sessions st → Tables.s_id s ≠ session) →
  Tables.select (SelectAccountBySession (Quoted session)) st = [].
Proof.
  intros Hnone. cbn. induction (Tables.accounts st) as [|a l IH]; [done|].
  rewrite bind_cons, IH, (right_id_L [] (++)).
  assert (filter (λ s, Tables.s_account_id s = Tables.a_id a
                       ∧ Tables.s_id s = session)
            (Tables.account_sessions st) = []) as ->; [|done].
  apply filter_none. intros s Hs [_ Heq]. by apply (Hnone s).
Qed.

Section lookups.
Context {DB : Type} `{!Database DB}.
Variable transformToSHA1 : string → string.

Implicit Types (w : @World DB) (acc : AccountInfo).

Lemma load_no_handle query acc w :
  (db_storeQuery query (database w)).1 = None →
  (load query acc w).1 = (false, acc).
Proof.
  destruct (db_storeQuery query (database w)) as [r db] eqn:E.
  cbn. intros ->. by rewrite (load_none _ _ _ _ E).
Qed.

(** C8. A look-up whose account query comes back without a result handle
    reports failure and returns the caller's record as it was passed in;
    this holds for [loadByID], [loadByEmailOrName] and [loadBySession]. On
    the table store, [loadBySession] with a token whose digest is the key
    of no session row is such a look-up. *)
Theorem lookup_without_handle acc w :
  (∀ id,
     (db_storeQuery (SelectAccountByID id) (database w)).1 = None →
     (loadByID id acc w).1 = (false, acc)) ∧
  (∀ (oldProtocol : bool) emailOrName,
     (db_storeQuery
        (SelectAccountByIdentifier (if oldProtocol then "name" else "email")
           (escapeString emailOrName)) (database w)).1 = None →
     (loadByEmailOrName oldProtocol emailOrName acc w).1 = (false, acc)) ∧
  (∀ sessionKey,
     (db_storeQuery
        (SelectAccountBySession (escapeString (transformToSHA1 sessionKey)))
        (database w)).1 = None →
     (loadBySession transformToSHA1 sessionKey acc w).1 = (false, acc)) ∧
  (∀ (wt : @World Tables.Store) sessionKey,
     (∀ s, s ∈ Tables.account_sessions (database wt) →
           Tables.s_id s ≠ transformToSHA1 sessionKey) →
     (loadBySession transformToSHA1 sessionKey acc wt).1 = (false, acc)).
Proof.
  repeat split.
  - intros id0 Hnone. by apply load_no_handle.
  - intros oldProtocol emailOrName Hnone. by apply load_no_handle.
  - intros sessionKey Hnone. by apply load_no_handle.
  - intros wt sessionKey Hnone. unfold loadBySession.
    destruct (db_storeQuery
                (SelectAccountBySession
                   (escapeString (transformToSHA1 sessionKey)))
                (database wt)) as [r db] eqn:E.
    assert (r = None) as ->.
    { unfold db_storeQuery, Tables.store_database, escapeString in E.
      rewrite (select_session_none _ _ Hnone) in E.
      destruct (Tables.reachable (database wt)); by inversion E. }
    by rewrite (load_none _ _ _ _ E).
Qed.

End lookups.

(** ** Character ownership *)

Lemma handle_countResults rows :
  match Tables.handle rows with
  | Some result => countResults result = Z.of_nat (length rows)
  | None => rows = []
  end.
Proof. by destruct rows. Qed.

Lemma getCharacterByAccountIdAndName_run {DB : Type} `{!Database DB}
    (id : Z) (name : string) (w : @World DB) :
  (getCharacterByAccountIdAndName id name w).1 =
  match (db_storeQuery (SelectPlayerID id (escapeString name)) (database w)).1
  with
  | Some result => bool_decide (countResults result = 1)
  | None => false
  end.
Proof.
  unfold getCharacterByAccountIdAndName, mbind, M_bind.
  destruct (db_storeQuery _ (database w)) as [[result|] db] eqn:E;
    by rewrite (storeQuery_run _ _ _ _ E).
Qed.

(** On the table store the check counts the rows of [players] with the
    account id and the name. *)
Lemma getCharacterByAccountIdAndName_count (id : Z) (name : string)
    (w : @World Tables.Store) :
  Tables.reachable (database w) = true →
  (getCharacterByAccountIdAndName id name w).1 =
  bool_decide
    (length (filter (λ p, Tables.p_account_id p = id ∧ Tables.p_name p = name)
               (Tables.players (database w))) = 1%nat).
Proof.
  intros Hup. rewrite getCharacterByAccountIdAndName_run.
  unfold db_storeQuery, Tables.store_database, escapeString. rewrite Hup.
  cbn [fst Tables.select].
  set (rows := _ <$> _).
  assert (length rows =
          length (filter (λ p, Tables.p_account_id p = id
                               ∧ Tables.p_name p = name)
                    (Tables.players (database w)))) as <-.
  { subst rows. rewrite length_fmap. f_equal. apply list_filter_iff.
    intros p. unfold Tables.owned.
    rewrite andb_True, !bool_decide_spec. done. }
  pose proof (handle_countResults rows) as Hh.
  destruct (Tables.handle rows) as [result|].
  - rewrite Hh. apply bool_decide_ext. lia.
  - rewrite Hh. by rewrite bool_decide_eq_false_2.
Qed.

Lemma filter_with_deletion (P : Tables.PlayerRow → Prop)
    `{∀ p, Decision (P p)} (deletion : Tables.PlayerRow → Z) l :
  (∀ p d, P (Tables.with_deletion d p) ↔ P p) →
  length (filter P ((λ p, Tables.with_deletion (deletion p) p) <$> l)) =
  length (filter P l).
Proof.
  intros HP. induction l as [|p l IH]; [done|].
  rewrite fmap_cons, !filter_cons.
  destruct (decide (P p)) as [Hp|Hp].
  - rewrite decide_True by (by apply HP). cbn. by rewrite IH.
  - rewrite decide_False by (by rewrite HP). done.
Qed.

(** C9. [getCharacterByAccountIdAndName] answers true exactly when one row
    of [players] has the account id and the name: none or several give
    false. The deletion timestamp plays no part: with the timestamps of the
    rows changed at will the answer is the same. (The store is assumed to
    answer the fetch.) *)
Theorem getCharacterByAccountIdAndName_exactly_one (id : Z) (name : string)
    (w : @World Tables.Store) :
  Tables.reachable (database w) = true →
  let matching (st : Tables.Store) :=
    filter (λ p, Tables.p_account_id p = id ∧ Tables.p_name p = name)
      (Tables.players st) in
  ((getCharacterByAccountIdAndName id name w).1 = true
   ↔ length (matching (database w)) = 1%nat) ∧
  (∀ deletion : Tables.PlayerRow → Z,
     let st' :=
       Tables.set_players
         ((λ p, Tables.with_deletion (deletion p) p)
            <$> Tables.players (database w)) (database w) in
     (getCharacterByAccountIdAndName id name
        {| database := st'; logger := logger w; clock := clock w;
           calls := calls w |}).1 =
     (getCharacterByAccountIdAndName id name w).1).
Proof.
  intros Hup matching. split.
  - rewrite getCharacterByAccountIdAndName_count by done.
    apply bool_decide_eq_true.
  - intros deletion st'.
    rewrite !getCharacterByAccountIdAndName_count by done.
    apply bool_decide_ext. cbn [database st' Tables.set_players Tables.players].
    by rewrite filter_with_deletion.
Qed.

(** ** Persistence *)

Lemma where_id_lookup id0 f (l : list Tables.AccountRow) i a :
  l !! i = Some a →
  Tables.where_id id0 f l !! i =
  Some (if decide (Tables.a_id a = id0) then f a else a).
Proof. intros Hi. unfold Tables.where_id. by rewrite list_lookup_fmap, Hi. Qed.

(** Saving the reconciled record of account 7 on the populated store: the
    stored creation time of the account goes from 0 to the record's. *)
Lemma save_reconciled7_creation :
  let w := Scenario.world Scenario.store in
  let w' := (save Scenario.reconciled7 w).2 in
  Tables.a_creation <$> Tables.accounts (database w) = [0; 1600000000] ∧
  Tables.a_creation <$> Tables.accounts (database w')
  = [Scenario.now; 1600000000].
Proof. by vm_compute. Qed.

(** The claim that [save] writes accountType, premiumRemainingDays,
    premiumLastDay and premiumDaysPurchased and no other column fails on the
    creation column, at the record and store above. *)
Lemma save_leaves_creation_refuted :
  ¬ (∀ (accInfo : AccountInfo) (w : @World Tables.Store),
       Tables.a_creation <$> Tables.accounts (database (save accInfo w).2)
       = Tables.a_creation <$> Tables.accounts (database w)).
Proof.
  intros Hsame.
  specialize (Hsame Scenario.reconciled7 (Scenario.world Scenario.store)).
  destruct save_reconciled7_creation as [Hbefore Hafter].
  rewrite Hbefore, Hafter in Hsame. discriminate Hsame.
Qed.

(** C5, amended. [save] hands the store one statement, the update of the
    five columns type, premdays, lastday, creation and premdays_purchased
    to the record's accountType, premiumRemainingDays, premiumLastDay,
    creationTime and premiumDaysPurchased where the row's id is the
    record's; it returns the store's outcome and logs one line exactly when
    that outcome is failure. On the table store a successful save changes
    those five columns of the rows with that id and nothing else; a failed
    one changes nothing. *)
Theorem save_writes_five_columns :
  (∀ (DB : Type) (Hdb : Database DB) (accInfo : AccountInfo) (w : @World DB),
     let statement :=
       UpdateAccount (accountType accInfo) (premiumRemainingDays accInfo)
         (premiumLastDay accInfo) (creationTime accInfo)
         (premiumDaysPurchased accInfo) (id accInfo) in
     let outcome := db_executeQuery statement (database w) in
     save accInfo w =
     (outcome.1,
      {| database := outcome.2;
         logger := logger w ++
                   (if outcome.1 then []
                    else [FailedToSaveAccount (id accInfo)]);
         clock := clock w;
         calls := calls w ++ [Execute statement] |})) ∧
  (∀ (accInfo : AccountInfo) (w : @World Tables.Store),
     let st := database w in
     let st' := database (save accInfo w).2 in
     (save accInfo w).1 = Tables.reachable st && Tables.writable st ∧
     ((save accInfo w).1 = false → st' = st) ∧
     ((save accInfo w).1 = true →
        Tables.account_sessions st' = Tables.account_sessions st ∧
        Tables.players st' = Tables.players st ∧
        Tables.coins_transactions st' = Tables.coins_transactions st ∧
        length (Tables.accounts st') = length (Tables.accounts st) ∧
        ∀ i a, Tables.accounts st !! i = Some a →
          ∃ a', Tables.accounts st' !! i = Some a' ∧
            (Tables.a_id a ≠ id accInfo → a' = a) ∧
            (Tables.a_id a = id accInfo →
               Tables.a_type a' = accountType accInfo ∧
               Tables.a_premdays a' = premiumRemainingDays accInfo ∧
               Tables.a_lastday a' = premiumLastDay accInfo ∧
               Tables.a_creation a' = creationTime accInfo ∧
               Tables.a_premdays_purchased a' = premiumDaysPurchased accInfo ∧
               Tables.a_id a' = Tables.a_id a ∧
               Tables.a_name a' = Tables.a_name a ∧
               Tables.a_email a' = Tables.a_email a ∧
               Tables.a_password a' = Tables.a_password a ∧
               Tables.a_coins a' = Tables.a_coins a ∧
               Tables.a_tournament_coins a' = Tables.a_tournament_coins a ∧
               Tables.a_coins_transferable a' = Tables.a_coins_transferable a))).
Proof.
  split.
  - intros DB Hdb accInfo w statement outcome.
    apply save_run. unfold save_statement. fold statement.
    subst outcome. by destruct (db_executeQuery statement (database w)).
  - intros accInfo w st st'. subst st'.
    destruct (db_executeQuery (save_statement accInfo) (database w))
      as [successful db] eqn:E.
    rewrite (save_run _ _ _ _ E). cbn [fst snd database].
    unfold db_executeQuery, Tables.store_database in E. fold st in E.
  cbn [Tables.accepted save_statement] in E. rewrite andb_true_r in E.
    destruct (Tables.reachable st && Tables.writable st);
      inversion E; subst successful db; clear E.
    + split; [done|]. split; [done|]. intros _.
      cbn [Tables.apply save_statement Tables.set_accounts
           Tables.account_sessions Tables.players Tables.coins_transactions
           Tables.accounts].
      repeat split; try done.
      * unfold Tables.where_id. by rewrite length_fmap.
      * intros i a Hi. eexists. split; [by apply where_id_lookup|].
        split; intros Hid; [by rewrite decide_False|].
        by rewrite decide_True.
    + split; [done|]. split; [done|]. done.
Qed.

(** ** The character list *)

Lemma player_row_name (p : Tables.PlayerRow) :
  row_name (list_to_map [ ("name", SqlText (Tables.p_name p));
                          ("deletion", SqlInt (Tables.p_deletion p)) ])
  = Tables.p_name p.
Proof.
  unfold row_name, getString. cbn [row list_to_map foldr fst snd].
  by rewrite lookup_insert_eq.
Qed.

Lemma by_name_total : Total Tables.by_name.
Proof. intros p q. unfold Tables.by_name. apply (total String.le). Qed.

(** The table store answers the player query in ascending order of name. *)
Lemma select_players_sorted (st : Tables.Store) (account_id : Z) :
  Sorted String.le (row_name <$> Tables.select (SelectPlayers account_id) st).
Proof.
  cbn [Tables.select]. rewrite <- list_fmap_compose.
  eapply Sorted_fmap;
    [|apply (@Sorted_merge_sort _ Tables.by_name _ by_name_total)].
  intros p q Hpq. unfold compose. by rewrite !player_row_name.
Qed.

(** C7. When the player fetch yields a handle, [loadAccountPlayers] reports
    success and has run [try_emplace] once for every fetched row whose
    deletion timestamp is zero and for no other row, in the order fetched:
    the names of the player set are those it held plus the names of these
    rows; if the fetched names ascend, so do the inserted ones; and of
    several surviving rows with one name the first is the one kept. The
    table store answers the query in ascending order of name. *)
Theorem loadAccountPlayers_inserts {DB : Type} `{!Database DB}
    (acc : AccountInfo) (w : @World DB) (result : DBResult) (db : DB) :
  db_storeQuery (SelectPlayers (id acc)) (database w) = (Some result, db) →
  let fetched := rows_of result in
  let inserted := surviving fetched in
  (∃ acc' w',
     loadAccountPlayers acc w = ((true, acc'), w') ∧
     (∀ r, r ∈ inserted ↔ r ∈ fetched ∧ row_deletion r = 0) ∧
     players acc' =
       foldl (λ m r, try_emplace (row_name r) (row_deletion r) m)
         (players acc) inserted ∧
     (∀ name, name ∈ dom (players acc') ↔
              name ∈ dom (players acc) ∨ ∃ r, r ∈ inserted ∧ row_name r = name) ∧
     (∀ R : relation string, Transitive R →
        Sorted R (row_name <$> fetched) → Sorted R (row_name <$> inserted)) ∧
     (∀ before r after,
        inserted = before ++ r :: after →
        (∀ r', r' ∈ before → row_name r' ≠ row_name r) →
        players acc !! row_name r = None →
        players acc' !! row_name r = Some (row_deletion r))) ∧
  (∀ (st : Tables.Store) account_id,
     Sorted String.le
       (row_name <$> Tables.select (SelectPlayers account_id) st)).
Proof.
  intros E fetched inserted. split; [|apply select_players_sorted].
  eexists _, _. split; [by apply loadAccountPlayers_some|].
  fold fetched inserted. cbn [players set_players].
  split; [|split; [done|split; [|split]]].
  - intros r. unfold inserted, surviving. rewrite list_elem_of_filter.
    tauto.
  - intros name. rewrite foldl_try_emplace, dom_union_L, elem_of_union.
    rewrite dom_list_to_map_L, elem_of_list_to_set, list_elem_of_fmap.
    split; (intros [?|Hin]; [by left|right]).
    + destruct Hin as ([n d] & -> & Hin).
      apply list_elem_of_fmap in Hin as (r & [= -> ->] & Hr). by exists r.
    + destruct Hin as (r & Hr & <-).
      exists (row_name r, row_deletion r). split; [done|].
      apply list_elem_of_fmap. by exists r.
  - intros R HR. by apply Sorted_fmap_filter.
  - intros before r after Hsplit Hfresh Hnone.
    rewrite foldl_try_emplace, lookup_union_r by done.
    rewrite Hsplit. by apply list_to_map_first.
Qed.

(** * The statements on the populated store *)

Lemma load_five_days_account7 :
  ∃ acc' w',
    load (SelectAccountByID 7) Scenario.blank (Scenario.world Scenario.store)
    = ((true, acc'), w') ∧
    premiumRemainingDays acc' = 5 ∧
    premiumDaysPurchased acc' = 5 ∧
    creationTime acc' = Scenario.now ∧
    calls w' =
      [ Fetch (SelectAccountByID 7);
        Execute (UpdateAccount 1 5 (Scenario.now + 432000) Scenario.now 5 7);
        Fetch (SelectPlayers 7) ].
Proof.
  eapply (load_five_days (SelectAccountByID 7) Scenario.blank
            (Scenario.world Scenario.store)
            {| row := Tables.account_columns Scenario.account7 0;
               pending := [] |}
            Scenario.store true);
    [ vm_compute; split; [discriminate | reflexivity]
    | reflexivity.. ].
Defined.

Lemma load_premiumRemainingDays_account7 :
  let loaded :=
    load (SelectAccountByID 7) Scenario.blank (Scenario.world Scenario.store) in
  premiumRemainingDays loaded.1.2 =
  uint32_t (Z.max 0 ((premiumLastDay loaded.1.2 - Scenario.now) `div` 86400)).
Proof.
  intros loaded.
  refine (proj1 (load_premiumRemainingDays (SelectAccountByID 7)
                   Scenario.blank (Scenario.world Scenario.store)
                   loaded.1.2 loaded.2 _ _)).
  - vm_compute. discriminate.
  - vm_compute. reflexivity.
Defined.

Lemma setupLoyaltyInfo_invariant_blank :
  let acc' :=
    (setupLoyaltyInfo Scenario.blank (Scenario.world Scenario.store)).1 in
  premiumDaysPurchased acc' >= premiumRemainingDays acc' ∧ creationTime acc' ≠ 0.
Proof.
  apply (setupLoyaltyInfo_invariant Scenario.blank
           (Scenario.world Scenario.store)).
  vm_compute. discriminate.
Defined.

Lemma setupLoyaltyInfo_idempotent_reconciled7 :
  setupLoyaltyInfo Scenario.reconciled7 (Scenario.world Scenario.store)
  = (Scenario.reconciled7, Scenario.world Scenario.store).
Proof.
  apply (setupLoyaltyInfo_idempotent Scenario.reconciled7
           (Scenario.world Scenario.store)).
  - vm_compute. discriminate.
  - vm_compute. discriminate.
Defined.

Lemma coins_unknown_type_9 :
  getCoins Scenario.enumToValue 3 9 0 (Scenario.world Scenario.store)
  = ((false, 0),
     {| database := Scenario.store;
        logger := [InvalidCoinType "getCoins" 9];
        clock := Scenario.now; calls := [] |}).
Proof.
  apply (coins_unknown_type Scenario.enumToValue 3 9 0 100
           (Scenario.world Scenario.store)).
  intros c. destruct c; discriminate.
Defined.

Lemma loadAccountPlayers_inserts_account7 :
  ∃ acc' w',
    loadAccountPlayers Scenario.reconciled7 (Scenario.world Scenario.store)
    = ((true, acc'), w') ∧
    ∀ name, name ∈ dom (players acc') ↔
      name ∈ dom (players Scenario.reconciled7)
      ∨ ∃ r, r ∈ surviving
                   (Tables.select (SelectPlayers 7) Scenario.store)
             ∧ row_name r = name.
Proof.
  destruct (loadAccountPlayers_inserts Scenario.reconciled7
              (Scenario.world Scenario.store)
              {| row := default ∅ (head (Tables.select (SelectPlayers 7)
                                           Scenario.store));
                 pending := tail (Tables.select (SelectPlayers 7)
                                    Scenario.store) |}
              Scenario.store)
    as [(acc' & w' & Hrun & _ & _ & Hdom & _) _].
  - vm_compute. reflexivity.
  - exists acc', w'. split; [exact Hrun|exact Hdom].
Defined.

Lemma loadBySession_unknown_token :
  (loadBySession Scenario.transformToSHA1 "abc" Scenario.blank
     (Scenario.world Scenario.store)).1 = (false, Scenario.blank).
Proof.
  refine (proj2 (proj2 (proj2
            (lookup_without_handle Scenario.transformToSHA1 Scenario.blank
               (Scenario.world Scenario.store))))
            (Scenario.world Scenario.store) "abc" _).
  intros s Hs. vm_compute in Hs.
  apply list_elem_of_singleton in Hs as ->. vm_compute. discriminate.
Defined.

Lemma getCharacterByAccountIdAndName_soft_deleted :
  (getCharacterByAccountIdAndName 7 "Abe" (Scenario.world Scenario.store)).1
  = true
  ↔ length (filter (λ p, Tables.p_account_id p = 7 ∧ Tables.p_name p = "Abe")
              (Tables.players Scenario.store)) = 1%nat.
Proof.
  apply (getCharacterByAccountIdAndName_exactly_one 7 "Abe"
           (Scenario.world Scenario.store)).
  reflexivity.
Defined.

Lemma load_ignores_save_outcome_read_only :
  ∃ acc' w',
    load (SelectAccountByID 7) Scenario.blank
      (Scenario.world Scenario.read_only) = ((true, acc'), w') ∧
    premiumDaysPurchased acc' = 5 ∧
    creationTime acc' = Scenario.now ∧
    logger w' = [FailedToSaveAccount 7].
Proof.
  destruct (load_ignores_save_outcome (SelectAccountByID 7) Scenario.blank
              (Scenario.world Scenario.read_only)
              {| row := Tables.account_columns Scenario.account7 0;
                 pending := [] |}
              Scenario.read_only false Scenario.read_only
              {| row := default ∅ (head (Tables.select (SelectPlayers 7)
                                           Scenario.read_only));
                 pending := tail (Tables.select (SelectPlayers 7)
                                    Scenario.read_only) |}
              Scenario.read_only)
    as (acc' & w' & Hrun & Hp & Hc & Hlog & _).
  - reflexivity.
  - vm_compute. intros [Hge _]. by apply Hge.
  - reflexivity.
  - vm_compute. reflexivity.
  - exists acc', w'. split; [exact Hrun|].
    vm_compute in Hrun. injection Hrun as <- <-. vm_compute. done.
Defined.


(** * Further properties of the gateway *)

(** ** Reconciliation, field by field *)

Section reconciliation_effects.
Context {DB : Type} `{!Database DB}.

Implicit Types (w : @World DB) (acc : AccountInfo) (query : Query).

(** X1. [setupLoyaltyInfo] only ever raises premiumDaysPurchased, to the
    larger of its value and premiumRemainingDays; it leaves a creationTime
    that is set as it is and fills one that is 0 from the clock; it changes
    no other field. *)
Theorem setupLoyaltyInfo_only_raises acc w :
  let acc' := (setupLoyaltyInfo acc w).1 in
  premiumDaysPurchased acc' =
    Z.max (premiumDaysPurchased acc) (premiumRemainingDays acc) ∧
  premiumDaysPurchased acc <= premiumDaysPurchased acc' ∧
  (creationTime acc ≠ 0 → creationTime acc' = creationTime acc) ∧
  (creationTime acc = 0 → creationTime acc' = uint32_t (clock w)) ∧
  id acc' = id acc ∧
  premiumRemainingDays acc' = premiumRemainingDays acc ∧
  premiumLastDay acc' = premiumLastDay acc ∧
  accountType acc' = accountType acc ∧
  players acc' = players acc ∧
  sessionExpires acc' = sessionExpires acc.
Proof.
  intros acc'. subst acc'.
  destruct (decide (consistent acc)) as [[Hp Hc]|Hn].
  - rewrite setupLoyaltyInfo_consistent by done. cbn.
    repeat split; try done; lia.
  - rewrite (setupLoyaltyInfo_corrected _ _ Hn). unfold corrected. cbn.
    repeat split; try done; try lia.
    + intros Hc. by rewrite decide_False.
    + intros Hc. by rewrite decide_True.
Qed.

(** X2. What [setupLoyaltyInfo] persists is what it hands back: on a
    consistent record the world is untouched; otherwise the store receives
    exactly one statement, the update of [save] for the returned record, and
    the log grows by one line exactly when that update fails. *)
Theorem setupLoyaltyInfo_writes_what_it_returns acc w :
  let acc' := (setupLoyaltyInfo acc w).1 in
  let w' := (setupLoyaltyInfo acc w).2 in
  let write_back :=
    UpdateAccount (accountType acc') (premiumRemainingDays acc')
      (premiumLastDay acc') (creationTime acc') (premiumDaysPurchased acc')
      (id acc') in
  let outcome := db_executeQuery write_back (database w) in
  (premiumDaysPurchased acc >= premiumRemainingDays acc ∧ creationTime acc ≠ 0 →
   acc' = acc ∧ w' = w) ∧
  (¬ (premiumDaysPurchased acc >= premiumRemainingDays acc
      ∧ creationTime acc ≠ 0) →
   calls w' = calls w ++ [Execute write_back] ∧
   database w' = outcome.2 ∧
   logger w' =
     logger w ++ (if outcome.1 then [] else [FailedToSaveAccount (id acc')])).
Proof.
  intros acc' w' write_back outcome. split.
  - intros Hc. subst acc' w'.
    by rewrite (setupLoyaltyInfo_consistent acc w Hc).
  - intros Hn. subst outcome write_back acc' w'.
    rewrite (setupLoyaltyInfo_corrected acc w Hn). cbn [fst snd].
    set (acc' := corrected (clock w) acc).
    change (UpdateAccount _ _ _ _ _ _) with (save_statement acc').
    destruct (db_executeQuery (save_statement acc') (database w))
      as [successful db] eqn:E.
    by rewrite (save_run _ _ _ _ E).
Qed.

End reconciliation_effects.

(** ** More on the load path *)

Section loading_effects.
Context {DB : Type} `{!Database DB}.

Implicit Types (w : @World DB) (acc : AccountInfo) (query : Query).

(** X3. A load that finds the stored record consistent writes nothing: when
    the fetched row already has premdays_purchased at least the remaining
    days and a creation time, and the player fetch yields a handle, the
    load reports success, the store has received the two fetches and no
    statement, the log is as before, and the returned purchased days and
    creation time are the stored ones. *)
Theorem load_consistent_writes_nothing query acc w result db1 presult db2 :
  let now := clock w in
  let remaining :=
    uint32_t (if bool_decide (getNumber time_t result "lastday" > now)
              then time_t (getNumber time_t result "lastday" - now)
                     `quot` 86400
              else 0) in
  let i := getNumber uint32_t result "id" in
  db_storeQuery query (database w) = (Some result, db1) →
  getNumber uint32_t result "premdays_purchased" >= remaining →
  getNumber uint32_t result "creation" ≠ 0 →
  db_storeQuery (SelectPlayers i) db1 = (Some presult, db2) →
  ∃ acc' w',
    load query acc w = ((true, acc'), w') ∧
    premiumRemainingDays acc' = remaining ∧
    premiumDaysPurchased acc' = getNumber uint32_t result "premdays_purchased" ∧
    creationTime acc' = getNumber uint32_t result "creation" ∧
    calls w' = calls w ++ [Fetch query; Fetch (SelectPlayers i)] ∧
    logger w' = logger w ∧
    database w' = db2.
Proof.
  intros now remaining i Ea Hp Hc Ep.
  rewrite (load_some _ _ _ _ _ Ea).
  rewrite setupLoyaltyInfo_consistent by (by split).
  erewrite loadAccountPlayers_some by exact Ep.
  eexists _, _. split; [done|]. cbn.
  by rewrite <- (assoc_L (++)).
Qed.

(** X4. The record is not rolled back when the player fetch fails: once the
    account fetch has yielded a row, a load whose player fetch yields no
    handle reports failure, yet hands back the record filled from that row
    and reconciled, not the caller's, and leaves the line of the failed
    player fetch last in the log. *)
Theorem load_players_failure_keeps_record query acc w result db1 acc1 w1 db2 :
  db_storeQuery query (database w) = (Some result, db1) →
  setupLoyaltyInfo (mapped result (clock w) acc) (after_fetch query db1 w)
  = (acc1, w1) →
  db_storeQuery (SelectPlayers (id acc1)) (database w1) = (None, db2) →
  ∃ w',
    load query acc w = ((false, acc1), w') ∧
    id acc1 = getNumber uint32_t result "id" ∧
    accountType acc1 = getNumber uint16_t result "type" ∧
    premiumLastDay acc1 = getNumber time_t result "lastday" ∧
    sessionExpires acc1 = getNumber time_t result "expires" ∧
    premiumDaysPurchased acc1 >= getNumber uint32_t result "premdays_purchased" ∧
    players acc1 = players acc ∧
    logger w' = logger w1 ++ [FailedToLoadPlayers (id acc1)] ∧
    calls w' = calls w1 ++ [Fetch (SelectPlayers (id acc1))].
Proof.
  intros Ea Es Ep.
  rewrite (load_some _ _ _ _ _ Ea), Es.
  rewrite (loadAccountPlayers_none _ _ _ Ep).
  eexists. split; [done|].
  destruct (setupLoyaltyInfo_frame (mapped result (clock w) acc)
              (after_fetch query db1 w)) as (Hi & _ & Hl & Ht & Hpl & He).
  rewrite Es in Hi, Hl, Ht, Hpl, He. cbn in Hi, Hl, Ht, Hpl, He.
  repeat split; try done.
  destruct (decide (consistent (mapped result (clock w) acc))) as [Hc|Hn].
  - rewrite (setupLoyaltyInfo_consistent _ _ Hc) in Es.
    injection Es as <- <-. cbn. lia.
  - rewrite (setupLoyaltyInfo_corrected _ _ Hn) in Es.
    injection Es as <- <-. cbn. lia.
Qed.

(** X5. A load that finds its row takes nothing from the record passed in
    but the player set: two records with the same players come back the
    same, in the same world. *)
Theorem load_takes_only_players query acc1 acc2 w :
  is_Some (db_storeQuery query (database w)).1 →
  players acc1 = players acc2 →
  load query acc1 w = load query acc2 w.
Proof.
  intros [result Hsome] Hplayers.
  destruct (db_storeQuery query (database w)) as [r db] eqn:E.
  cbn in Hsome. subst r.
  rewrite !(load_some _ _ _ _ _ E). unfold mapped. by rewrite Hplayers.
Qed.

End loading_effects.

(** ** What the reading operations leave alone *)

Section reading.
Context {DB : Type} `{!Database DB}.
Variable enumToValue : CoinType → Z.

Implicit Types (w : @World DB) (acc : AccountInfo) (query : Query).

(** X6. [loadAccountPlayers] only adds to the player set: every entry the
    record holds is still there with its value, every entry that is new has
    the value 0, and no other field of the record changes, whether the fetch
    yields a handle or not. *)
Theorem loadAccountPlayers_only_adds acc w :
  let acc' := (loadAccountPlayers acc w).1.2 in
  (∀ name d, players acc !! name = Some d → players acc' !! name = Some d) ∧
  (∀ name d, players acc' !! name = Some d →
             players acc !! name = Some d ∨ d = 0) ∧
  id acc' = id acc ∧
  premiumRemainingDays acc' = premiumRemainingDays acc ∧
  premiumLastDay acc' = premiumLastDay acc ∧
  accountType acc' = accountType acc ∧
  sessionExpires acc' = sessionExpires acc ∧
  premiumDaysPurchased acc' = premiumDaysPurchased acc ∧
  creationTime acc' = creationTime acc.
Proof.
  intros acc'. subst acc'.
  destruct (db_storeQuery (SelectPlayers (id acc)) (database w))
    as [[result|] db] eqn:E.
  - rewrite (loadAccountPlayers_some _ _ _ _ E). cbn [fst snd].
    unfold set_players. cbn [players]. rewrite foldl_try_emplace.
    split; [|split; [|done]].
    + intros name d Hd. by apply lookup_union_Some_l.
    + intros name d [Hd|[_ Hd]]%lookup_union_Some_raw; [by left|right].
      apply elem_of_list_to_map_2 in Hd.
      apply list_elem_of_fmap in Hd as (r & [= -> ->] & Hr).
      unfold surviving in Hr. by apply list_elem_of_filter in Hr as [Hr _].
  - rewrite (loadAccountPlayers_none _ _ _ E). cbn. naive_solver.
Qed.

(** The statements an operation added to those the store had received. *)
Lemma getCharacterByAccountIdAndName_calls (id : Z) (name : string) w :
  calls (getCharacterByAccountIdAndName id name w).2
  = calls w ++ [Fetch (SelectPlayerID id (escapeString name))].
Proof.
  unfold getCharacterByAccountIdAndName, mbind, M_bind.
  destruct (db_storeQuery (SelectPlayerID id (escapeString name)) (database w))
    as [[result|] db] eqn:E; by rewrite (storeQuery_run _ _ _ _ E).
Qed.

Lemma getPassword_calls (id : Z) (password : string) w :
  calls (getPassword id password w).2 = calls w ++ [Fetch (SelectAccount id)].
Proof.
  unfold getPassword, mbind, M_bind.
  destruct (db_storeQuery (SelectAccount id) (database w))
    as [[result|] db] eqn:E; by rewrite (storeQuery_run _ _ _ _ E).
Qed.

Lemma getCoins_calls (id type coins : Z) w :
  calls (getCoins enumToValue id type coins w).2 = calls w ∨
  ∃ column,
    calls (getCoins enumToValue id type coins w).2
    = calls w ++ [Fetch (SelectCoins column id)].
Proof.
  unfold getCoins. destruct (contains type _); cbn [negb]; [right|by left].
  exists (coinTypeToColumn enumToValue !!! type). unfold mbind, M_bind.
  destruct (db_storeQuery
              (SelectCoins (coinTypeToColumn enumToValue !!! type) id)
              (database w)) as [[result|] db] eqn:E;
    by rewrite (storeQuery_run _ _ _ _ E).
Qed.

Lemma loadAccountPlayers_calls acc w :
  calls (loadAccountPlayers acc w).2
  = calls w ++ [Fetch (SelectPlayers (id acc))].
Proof.
  destruct (db_storeQuery (SelectPlayers (id acc)) (database w))
    as [[result|] db] eqn:E.
  - by rewrite (loadAccountPlayers_some _ _ _ _ E).
  - by rewrite (loadAccountPlayers_none _ _ _ E).
Qed.

(** X7. The four reading operations, [getCharacterByAccountIdAndName],
    [getPassword], [getCoins] and [loadAccountPlayers], hand the store no
    statement to execute: any [Execute] among the calls afterwards was
    there before. *)
Theorem reads_execute_nothing (id type coins : Z) (name password : string)
    acc w q :
  (Execute q ∈ calls (getCharacterByAccountIdAndName id name w).2 →
   Execute q ∈ calls w) ∧
  (Execute q ∈ calls (getPassword id password w).2 → Execute q ∈ calls w) ∧
  (Execute q ∈ calls (getCoins enumToValue id type coins w).2 →
   Execute q ∈ calls w) ∧
  (Execute q ∈ calls (loadAccountPlayers acc w).2 → Execute q ∈ calls w).
Proof.
  repeat split.
  - rewrite getCharacterByAccountIdAndName_calls, elem_of_app,
      list_elem_of_singleton. by intros [Hin|[=]].
  - rewrite getPassword_calls, elem_of_app, list_elem_of_singleton.
    by intros [Hin|[=]].
  - destruct (getCoins_calls id type coins w) as [->|[column ->]]; [done|].
    rewrite elem_of_app, list_elem_of_singleton. by intros [Hin|[=]].
  - rewrite loadAccountPlayers_calls, elem_of_app, list_elem_of_singleton.
    by intros [Hin|[=]].
Qed.

End reading.

(** ** Coin balances on the table store *)

Lemma coinTypeToColumn_known (enumToValue : CoinType → Z) (c : CoinType) :
  ∃ column,
    coinTypeToColumn enumToValue !! enumToValue c = Some column ∧
    column ∈ ["coins"; "tournament_coins"; "coins_transferable"].
Proof.
  unfold coinTypeToColumn. cbn [list_to_map foldr fst snd].
  rewrite !lookup_insert.
  destruct c; repeat case_decide; try done; eexists; (split; [done|]);
    set_solver.
Qed.

Lemma coinTypeToColumn_distinct (enumToValue : CoinType → Z) t t' column column' :
  coinTypeToColumn enumToValue !! t = Some column →
  coinTypeToColumn enumToValue !! t' = Some column' →
  t ≠ t' → column ≠ column'.
Proof.
  unfold coinTypeToColumn. cbn [list_to_map foldr fst snd].
  rewrite !lookup_insert, !lookup_empty.
  repeat case_decide; intros; simplify_eq; done.
Qed.

Lemma contains_lookup (m : gmap Z string) type column :
  m !! type = Some column → contains type m = true ∧ m !!! type = column.
Proof.
  intros Hl. split.
  - unfold contains. apply bool_decide_eq_true_2. by eexists.
  - by apply lookup_total_correct.
Qed.

Lemma filter_non_empty {A} (P : A → Prop) `{∀ x, Decision (P x)}
    (l : list A) (x : A) :
  x ∈ l → P x → ∃ y k, filter P l = y :: k.
Proof.
  intros Hx HP. destruct (filter P l) as [|y k] eqn:E; [|by eauto].
  by destruct (filter_nil_not_elem_of P l x E HP).
Qed.

Lemma where_id_filter_same id0 f (l : list Tables.AccountRow) :
  (∀ a, Tables.a_id (f a) = Tables.a_id a) →
  filter (λ a, Tables.a_id a = id0) (Tables.where_id id0 f l)
  = f <$> filter (λ a, Tables.a_id a = id0) l.
Proof.
  intros Hf. unfold Tables.where_id.
  induction l as [|a l IH]; [done|].
  rewrite fmap_cons, !filter_cons.
  destruct (decide (Tables.a_id a = id0)) as [Ha|Ha].
  - rewrite decide_True by (by rewrite Hf). by rewrite fmap_cons, IH.
  - by rewrite decide_False.
Qed.

Lemma where_id_filter_other id0 id1 f (l : list Tables.AccountRow) :
  (∀ a, Tables.a_id (f a) = Tables.a_id a) →
  id1 ≠ id0 →
  filter (λ a, Tables.a_id a = id1) (Tables.where_id id0 f l)
  = filter (λ a, Tables.a_id a = id1) l.
Proof.
  intros Hf Hne. unfold Tables.where_id.
  induction l as [|a l IH]; [done|].
  rewrite fmap_cons, !filter_cons.
  destruct (decide (Tables.a_id a = id0)) as [Ha|Ha].
  - rewrite !decide_False by (rewrite ?Hf; congruence). done.
  - case_decide; by rewrite IH.
Qed.

Lemma coin_column_update_same column amount a :
  column ∈ ["coins"; "tournament_coins"; "coins_transferable"] →
  Tables.coin_column column (Tables.update_coins column amount a) = Some amount.
Proof.
  intros Hc. unfold Tables.coin_column, Tables.update_coins. cbn.
  repeat case_decide; try done.
  rewrite !elem_of_cons, elem_of_nil in Hc. intuition congruence.
Qed.

Lemma coin_column_update_other column column' amount a :
  column' ≠ column →
  Tables.coin_column column' (Tables.update_coins column amount a)
  = Tables.coin_column column' a.
Proof.
  intros Hne. unfold Tables.coin_column, Tables.update_coins. cbn.
  repeat case_decide; congruence.
Qed.

(** What [getCoins] answers, from what the store answers. *)
Lemma getCoins_result {DB : Type} `{!Database DB} (enumToValue : CoinType → Z)
    (id type coins : Z) (w : @World DB) column :
  coinTypeToColumn enumToValue !! type = Some column →
  (getCoins enumToValue id type coins w).1 =
  match (db_storeQuery (SelectCoins column id) (database w)).1 with
  | Some result => (true, getNumber uint32_t result column)
  | None => (false, coins)
  end.
Proof.
  intros [Hc Ht]%contains_lookup. unfold getCoins. rewrite Hc, Ht.
  cbn [negb]. unfold mbind, M_bind.
  destruct (db_storeQuery (SelectCoins column id) (database w))
    as [[result|] db] eqn:E; by rewrite (storeQuery_run _ _ _ _ E).
Qed.

(** What [setCoins] does to the table store. *)
Lemma setCoins_table (enumToValue : CoinType → Z) (id type amount : Z)
    (w : @World Tables.Store) column :
  coinTypeToColumn enumToValue !! type = Some column →
  column ∈ ["coins"; "tournament_coins"; "coins_transferable"] →
  Tables.reachable (database w) && Tables.writable (database w) = true →
  setCoins enumToValue id type amount w =
  (true,
   {| database := Tables.apply (UpdateCoins column amount id) (database w);
      logger := logger w; clock := clock w;
      calls := calls w ++ [Execute (UpdateCoins column amount id)] |}).
Proof.
  intros [Hc Ht]%contains_lookup Hcol Hup. unfold setCoins.
  rewrite Hc, Ht. cbn [negb]. unfold mbind, M_bind, executeQuery.
  unfold db_executeQuery, Tables.store_database. rewrite Hup.
  unfold Tables.accepted. rewrite bool_decide_eq_true_2 by done.
  done.
Qed.

Lemma getCoins_run {DB : Type} `{!Database DB} (enumToValue : CoinType → Z)
    (id type coins : Z) (w : @World DB) column result db :
  coinTypeToColumn enumToValue !! type = Some column →
  db_storeQuery (SelectCoins column id) (database w) = (result, db) →
  getCoins enumToValue id type coins w =
  (match result with
   | Some result => (true, getNumber uint32_t result column)
   | None => (false, coins)
   end,
   after_fetch (SelectCoins column id) db w).
Proof.
  intros [Hc Ht]%contains_lookup E. unfold getCoins. rewrite Hc, Ht.
  cbn [negb]. unfold mbind, M_bind. rewrite (storeQuery_run _ _ _ _ E).
  by destruct result.
Qed.

Lemma getCoins_database {DB : Type} `{!Database DB}
    (enumToValue : CoinType → Z) (id type coins : Z) (w1 w2 : @World DB) :
  database w1 = database w2 →
  (getCoins enumToValue id type coins w1).1
  = (getCoins enumToValue id type coins w2).1.
Proof.
  intros Hdb.
  destruct (coinTypeToColumn enumToValue !! type) as [column|] eqn:Hl.
  - rewrite !(getCoins_result _ _ _ _ _ _ Hl). by rewrite Hdb.
  - unfold getCoins, contains. rewrite Hl.
    by rewrite bool_decide_eq_false_2 by (by intros [? ?]).
Qed.

Lemma coinTypeToColumn_columns (enumToValue : CoinType → Z) type column :
  coinTypeToColumn enumToValue !! type = Some column →
  column ∈ ["coins"; "tournament_coins"; "coins_transferable"].
Proof.
  unfold coinTypeToColumn. cbn [list_to_map foldr fst snd].
  rewrite !lookup_insert, lookup_empty.
  rewrite !elem_of_cons.
  repeat case_decide; intros; simplify_eq; auto.
Qed.

(** The store after [setCoins]: as before, or with the one update applied. *)
Lemma setCoins_database (enumToValue : CoinType → Z) (id type amount : Z)
    (w : @World Tables.Store) :
  database (setCoins enumToValue id type amount w).2 = database w ∨
  ∃ column,
    coinTypeToColumn enumToValue !! type = Some column ∧
    database (setCoins enumToValue id type amount w).2
    = Tables.apply (UpdateCoins column amount id) (database w).
Proof.
  destruct (coinTypeToColumn enumToValue !! type) as [column|] eqn:Hl.
  - destruct (Tables.reachable (database w) && Tables.writable (database w))
      eqn:Hup.
    + right. exists column. split; [done|].
      by rewrite (setCoins_table _ _ _ _ _ _ Hl
                    (coinTypeToColumn_columns _ _ _ Hl) Hup).
    + left. apply contains_lookup in Hl as [Hc Ht]. unfold setCoins.
      rewrite Hc, Ht. cbn [negb]. unfold mbind, M_bind, executeQuery.
      unfold db_executeQuery, Tables.store_database. by rewrite Hup.
  - left. unfold setCoins, contains. rewrite Hl.
    by rewrite bool_decide_eq_false_2 by (by intros [? ?]).
Qed.

Lemma select_coins_after_update column amount id0 column' id1
    (st : Tables.Store) :
  id1 ≠ id0 ∨ column' ≠ column →
  Tables.select (SelectCoins column' id1)
    (Tables.apply (UpdateCoins column amount id0) st)
  = Tables.select (SelectCoins column' id1) st.
Proof.
  intros Hne. cbn [Tables.select Tables.apply Tables.set_accounts
                   Tables.accounts].
  destruct (decide (id1 = id0)) as [->|Hid].
  - destruct Hne as [?|Hcol]; [done|].
    rewrite where_id_filter_same by done.
    induction (filter _ (Tables.accounts st)) as [|a l IH]; [done|].
    rewrite fmap_cons. cbn [omap list_omap].
    rewrite coin_column_update_other by done.
    by rewrite IH.
  - by rewrite where_id_filter_other.
Qed.

(** X8. Setting a balance and reading it back: on a store that can be
    reached and written, for an account that exists and any of the three
    ledgers, [setCoins] reports success and a following [getCoins] of the
    same account and ledger reports success with the amount set, as a
    32-bit number. *)
Theorem setCoins_getCoins (enumToValue : CoinType → Z) (c : CoinType)
    (id amount coins : Z) (w : @World Tables.Store) :
  Tables.reachable (database w) && Tables.writable (database w) = true →
  (∃ a, a ∈ Tables.accounts (database w) ∧ Tables.a_id a = id) →
  let type := enumToValue c in
  (setCoins enumToValue id type amount w).1 = true ∧
  (getCoins enumToValue id type coins
     (setCoins enumToValue id type amount w).2).1 = (true, uint32_t amount).
Proof.
  intros Hup (a & Ha & Hid) type. subst type.
  destruct (coinTypeToColumn_known enumToValue c) as (column & Hl & Hcol).
  rewrite (setCoins_table _ _ _ _ _ _ Hl Hcol Hup). split; [done|].
  cbn [snd]. rewrite (getCoins_result _ _ _ _ _ _ Hl). cbn [database].
  unfold db_storeQuery, Tables.store_database.
  apply andb_true_iff in Hup as [Hr _].
  assert (Tables.reachable
            (Tables.apply (UpdateCoins column amount id) (database w)) = true)
    as -> by done.
  cbn [fst Tables.select Tables.apply Tables.set_accounts Tables.accounts].
  rewrite where_id_filter_same by done.
  destruct (filter_non_empty (λ a, Tables.a_id a = id) _ a Ha Hid)
    as (y & k & ->).
  rewrite fmap_cons. cbn [omap list_omap].
  rewrite coin_column_update_same by done. cbn [fmap option_fmap option_map].
  cbn [Tables.handle]. unfold getNumber. cbn [row].
  by rewrite lookup_singleton_eq.
Qed.

(** X9. [setCoins] touches one balance: whatever its outcome, [getCoins] of
    another account, or of another ledger of the same account, answers
    afterwards what it answered before. *)
Theorem setCoins_other_balances (enumToValue : CoinType → Z)
    (id type amount id' type' coins : Z) (w : @World Tables.Store) :
  id' ≠ id ∨ type' ≠ type →
  (getCoins enumToValue id' type' coins
     (setCoins enumToValue id type amount w).2).1
  = (getCoins enumToValue id' type' coins w).1.
Proof.
  intros Hne.
  destruct (setCoins_database enumToValue id type amount w)
    as [Hsame|(column & Hl & Hdb)].
  - by apply getCoins_database.
  - destruct (coinTypeToColumn enumToValue !! type') as [column'|] eqn:Hl'.
    + rewrite !(getCoins_result _ _ _ _ _ _ Hl'). rewrite Hdb.
      unfold db_storeQuery, Tables.store_database.
      rewrite select_coins_after_update; [done|].
      destruct Hne as [?|Ht]; [by left|right].
      by apply (coinTypeToColumn_distinct enumToValue type' type).
    + unfold getCoins, contains. rewrite Hl'.
      by rewrite bool_decide_eq_false_2 by (by intros [? ?]).
Qed.

(** X10. [getCoins] for one of the three ledgers fails quietly when there
    is nothing to read: if the store cannot be reached or holds no account
    with the id, it reports failure, leaves the caller's balance as it was
    and writes nothing to the log. *)
Theorem getCoins_nothing_to_read (enumToValue : CoinType → Z) (c : CoinType)
    (id coins : Z) (w : @World Tables.Store) :
  Tables.reachable (database w) = false
  ∨ (∀ a, a ∈ Tables.accounts (database w) → Tables.a_id a ≠ id) →
  (getCoins enumToValue id (enumToValue c) coins w).1 = (false, coins) ∧
  logger (getCoins enumToValue id (enumToValue c) coins w).2 = logger w ∧
  database (getCoins enumToValue id (enumToValue c) coins w).2 = database w.
Proof.
  intros Hnone.
  destruct (coinTypeToColumn_known enumToValue c) as (column & Hl & Hcol).
  assert (db_storeQuery (SelectCoins column id) (database w)
          = (None, database w)) as E.
  { unfold db_storeQuery, Tables.store_database.
    destruct Hnone as [->|Hnone]; [done|].
    cbn [Tables.select]. rewrite filter_none by done.
    by destruct (Tables.reachable (database w)). }
  by rewrite (getCoins_run _ _ _ _ _ _ _ _ Hl E).
Qed.

(** ** The transaction log and the password on the table store *)

(** X11. [registerCoinsTransaction] appends one row and touches nothing
    else: it succeeds exactly when the store can be reached and written,
    whatever the coin type; on success the transaction table is the old one
    followed by the row of its five arguments, the other tables are as
    before and nothing is logged; on failure the store is as before and one
    line is logged. Either way the store received the one insert. *)
Theorem registerCoinsTransaction_appends (id type coins coinType : Z)
    (description : string) (w : @World Tables.Store) :
  let st := database w in
  let run := registerCoinsTransaction id type coins coinType description w in
  let st' := database run.2 in
  run.1 = Tables.reachable st && Tables.writable st ∧
  calls run.2 =
    calls w ++ [Execute (InsertCoinsTransaction id type coinType coins
                           (escapeString description))] ∧
  (run.1 = true →
     Tables.coins_transactions st' =
       Tables.coins_transactions st ++
         [ {| Tables.t_account_id := id; Tables.t_type := type;
              Tables.t_coin_type := coinType; Tables.t_amount := coins;
              Tables.t_description := description |} ] ∧
     Tables.accounts st' = Tables.accounts st ∧
     Tables.account_sessions st' = Tables.account_sessions st ∧
     Tables.players st' = Tables.players st ∧
     logger run.2 = logger w) ∧
  (run.1 = false →
     st' = st ∧
     logger run.2 =
       logger w ++ [ErrorRegisteringCoinTransaction id type coinType coins
                      (escapeString description)]).
Proof.
  intros st run st'. subst run st'.
  unfold registerCoinsTransaction, mbind, M_bind, executeQuery.
  unfold db_executeQuery, Tables.store_database. fold st.
  cbn [Tables.accepted]. rewrite andb_true_r.
  destruct (Tables.reachable st && Tables.writable st); cbn;
    by repeat split.
Qed.

Lemma account_password (a : Tables.AccountRow) pending0 :
  getString {| row := Tables.account_all_columns a; pending := pending0 |}
    "password" = Tables.a_password a.
Proof.
  unfold getString, Tables.account_all_columns.
  cbn [row list_to_map foldr fst snd].
  by rewrite !lookup_insert_ne, lookup_insert_eq by done.
Qed.

(** X12. [getPassword] on a store that can be reached: with no account of
    the id it reports failure, leaves the caller's string as it was and logs
    one line; otherwise it reports success with the password of the first
    account row of that id and logs nothing. It never changes the store. *)
Theorem getPassword_first_match (id : Z) (password : string)
    (w : @World Tables.Store) :
  Tables.reachable (database w) = true →
  let run := getPassword id password w in
  ((∀ a, a ∈ Tables.accounts (database w) → Tables.a_id a ≠ id) →
   run.1 = (false, password) ∧
   logger run.2 = logger w ++ [FailedToGetPassword id]) ∧
  (∀ a k,
     filter (λ a, Tables.a_id a = id) (Tables.accounts (database w)) = a :: k →
     run.1 = (true, Tables.a_password a) ∧ logger run.2 = logger w) ∧
  database run.2 = database w.
Proof.
  intros Hup run. subst run.
  unfold getPassword, mbind, M_bind, storeQuery.
  unfold db_storeQuery, Tables.store_database. rewrite Hup.
  cbn [Tables.select]. split; [|split].
  - intros Hnone. by rewrite filter_none by done.
  - intros a k Hfilter. rewrite Hfilter. cbn [fmap list_fmap Tables.handle].
    cbn beta iota. by rewrite account_password.
  - by destruct (Tables.handle _).
Qed.

(** ** What a look-up finds *)

Lemma account_columns_mapped (a : Tables.AccountRow) (expires now : Z)
    pending0 (acc : AccountInfo) :
  mapped {| row := Tables.account_columns a expires; pending := pending0 |}
    now acc =
  {| id := uint32_t (Tables.a_id a);
     premiumRemainingDays :=
       uint32_t (if bool_decide (time_t (Tables.a_lastday a) > now)
                 then time_t (time_t (Tables.a_lastday a) - now) `quot` 86400
                 else 0);
     premiumLastDay := time_t (Tables.a_lastday a);
     accountType := uint16_t (Tables.a_type a);
     players := players acc;
     sessionExpires := time_t expires;
     premiumDaysPurchased := uint32_t (Tables.a_premdays_purchased a);
     creationTime := uint32_t (Tables.a_creation a) |}.
Proof.
  unfold mapped, getNumber, Tables.account_columns.
  cbn [row list_to_map foldr fst snd].
  repeat (rewrite ?lookup_insert_ne by done; rewrite lookup_insert_eq).
  done.
Qed.

Lemma handle_head rows result :
  Tables.handle rows = Some result → row result ∈ rows.
Proof. destruct rows; [done|]. intros [= <-]. left. Qed.

(** A load on the table store that reports success read its record off a
    row the query selects. *)
Lemma load_true_table query acc (w : @World Tables.Store) acc' w' :
  load query acc w = ((true, acc'), w') →
  ∃ result,
    row result ∈ Tables.select query (database w) ∧
    id acc' = id (mapped result (clock w) acc) ∧
    accountType acc' = accountType (mapped result (clock w) acc) ∧
    premiumLastDay acc' = premiumLastDay (mapped result (clock w) acc) ∧
    sessionExpires acc' = sessionExpires (mapped result (clock w) acc).
Proof.
  intros Hload.
  destruct (load_true_inv _ _ _ _ _ Hload) as (result & db & m & E & ->).
  exists result. split.
  - unfold db_storeQuery, Tables.store_database in E.
    destruct (Tables.reachable (database w)); [|done].
    injection E as E _. by apply handle_head.
  - destruct (setupLoyaltyInfo_frame (mapped result (clock w) acc)
                (after_fetch query db w)) as (Hi & _ & Hl & Ht & _ & He).
    cbn [id accountType premiumLastDay sessionExpires set_players].
    by rewrite Hi, Hl, Ht, He.
Qed.

Lemma mapped_row result1 result2 now acc :
  row result1 = row result2 →
  mapped result1 now acc = mapped result2 now acc.
Proof. intros Hr. unfold mapped, getNumber. by rewrite Hr. Qed.

(** X13. What [loadByID] and [loadByEmailOrName] find: a look-up that
    reports success has read an account row with the id asked for,
    respectively with the value asked for in its name column under the old
    protocol and in its email column otherwise; the record's id, type and
    expiry are that row's, and its sessionExpires is 0. *)
Theorem lookup_finds_the_account (acc acc' : AccountInfo)
    (w w' : @World Tables.Store) :
  (∀ id0,
     loadByID id0 acc w = ((true, acc'), w') →
     ∃ a, a ∈ Tables.accounts (database w) ∧ Tables.a_id a = id0 ∧
          id acc' = uint32_t id0 ∧
          accountType acc' = uint16_t (Tables.a_type a) ∧
          premiumLastDay acc' = time_t (Tables.a_lastday a) ∧
          sessionExpires acc' = 0) ∧
  (∀ (oldProtocol : bool) emailOrName,
     loadByEmailOrName oldProtocol emailOrName acc w = ((true, acc'), w') →
     ∃ a, a ∈ Tables.accounts (database w) ∧
          (if oldProtocol then Tables.a_name a else Tables.a_email a)
          = emailOrName ∧
          id acc' = uint32_t (Tables.a_id a) ∧
          accountType acc' = uint16_t (Tables.a_type a) ∧
          premiumLastDay acc' = time_t (Tables.a_lastday a) ∧
          sessionExpires acc' = 0).
Proof.
  split.
  - intros id0 Hload. apply load_true_table in Hload
      as (result & Hin & Hi & Ht & Hl & He).
    cbn [Tables.select] in Hin.
    apply list_elem_of_fmap in Hin as (a & Hrow & Ha).
    apply list_elem_of_filter in Ha as [Hid Ha].
    rewrite (mapped_row result
               {| row := Tables.account_columns a 0; pending := [] |})
      in Hi, Ht, Hl, He by done.
    rewrite account_columns_mapped in Hi, Ht, Hl, He. cbn in Hi, Ht, Hl, He.
    exists a. by rewrite <- Hid at 2.
  - intros oldProtocol emailOrName Hload. apply load_true_table in Hload
      as (result & Hin & Hi & Ht & Hl & He).
    assert (∃ a, row result = Tables.account_columns a 0 ∧
                 a ∈ Tables.accounts (database w) ∧
                 (if oldProtocol then Tables.a_name a else Tables.a_email a)
                 = emailOrName) as (a & Hrow & Ha & Hkey).
    { destruct oldProtocol; cbn in Hin;
        apply list_elem_of_fmap in Hin as (a & Hrow & Ha);
        apply list_elem_of_filter in Ha as [Hkey Ha]; by exists a. }
    rewrite (mapped_row result
               {| row := Tables.account_columns a 0; pending := [] |})
      in Hi, Ht, Hl, He by done.
    rewrite account_columns_mapped in Hi, Ht, Hl, He. cbn in Hi, Ht, Hl, He.
    by exists a.
Qed.

(** X14. What [loadBySession] finds: a look-up that reports success has
    read an account joined to a session row whose key is the digest of the
    token; the record's id is that account's and its sessionExpires that
    session's expiry. *)
Theorem loadBySession_finds_the_session (transformToSHA1 : string → string)
    (sessionKey : string) (acc acc' : AccountInfo)
    (w w' : @World Tables.Store) :
  loadBySession transformToSHA1 sessionKey acc w = ((true, acc'), w') →
  ∃ a s,
    a ∈ Tables.accounts (database w) ∧
    s ∈ Tables.account_sessions (database w) ∧
    Tables.s_id s = transformToSHA1 sessionKey ∧
    Tables.s_account_id s = Tables.a_id a ∧
    id acc' = uint32_t (Tables.a_id a) ∧
    sessionExpires acc' = time_t (Tables.s_expires s).
Proof.
  intros Hload. apply load_true_table in Hload
    as (result & Hin & Hi & _ & _ & He).
  cbn [Tables.select escapeString] in Hin.
  apply list_elem_of_bind in Hin as (a & Hin & Ha).
  apply list_elem_of_bind in Hin as (s & Hrow & Hs).
  apply list_elem_of_singleton in Hrow.
  apply list_elem_of_filter in Hs as [[Hacc Hkey] Hs].
  rewrite (mapped_row result
             {| row := Tables.account_columns a (Tables.s_expires s);
                pending := [] |}) in Hi, He by done.
  rewrite account_columns_mapped in Hi, He. cbn in Hi, He.
  by exists a, s.
Qed.

(** ** Loading twice *)

Lemma uint32_t_idemp z : uint32_t (uint32_t z) = uint32_t z.
Proof. apply uint32_t_small, uint32_t_range. Qed.

Lemma uint16_t_idemp z : uint16_t (uint16_t z) = uint16_t z.
Proof. unfold uint16_t. apply Z.mod_mod. lia. Qed.

Lemma time_t_idemp z : time_t (time_t z) = time_t z.
Proof. apply time_t_small, time_t_range. Qed.

Lemma foldl_try_emplace_again {A} (name : A → string) (deletion : A → Z)
    (l : list A) (m : gmap string Z) :
  let f := λ m x, try_emplace (name x) (deletion x) m in
  foldl f (foldl f m l) l = foldl f m l.
Proof.
  cbn. rewrite !foldl_try_emplace.
  by rewrite <- (assoc_L (∪)), (idemp_L (∪)).
Qed.

(** Loading over a record that an earlier load of the same row produced:
    nothing is written and the record comes back as it is. *)
Lemma load_again {DB : Type} `{!Database DB} query (acc1 C : AccountInfo)
    (w1 : @World DB) result db presult db' (m0 : gmap string Z) :
  db_storeQuery query (database w1) = (Some result, db) →
  mapped result (clock w1) acc1 = set_players (players acc1) C →
  consistent C →
  db_storeQuery (SelectPlayers (id C)) db = (Some presult, db') →
  acc1 = set_players
           (foldl (λ m r, try_emplace (row_name r) (row_deletion r) m) m0
              (surviving (rows_of presult))) C →
  load query acc1 w1 =
  ((true, acc1),
   {| database := db'; logger := logger w1; clock := clock w1;
      calls := calls w1 ++ [Fetch query; Fetch (SelectPlayers (id C))] |}).
Proof.
  intros E Hm Hc Ep Hacc.
  rewrite (load_some _ _ _ _ _ E), Hm.
  rewrite setupLoyaltyInfo_consistent by done.
  erewrite loadAccountPlayers_some by exact Ep.
  unfold after_fetch. cbn [database logger clock calls].
  rewrite <- (assoc_L (++)). cbn [app]. f_equal. f_equal.
  rewrite Hacc at 3. rewrite Hacc at 1. cbn [players set_players].
  by rewrite foldl_try_emplace_again.
Qed.

Lemma select_account_first (st : Tables.Store) id0 a k :
  Tables.reachable st = true →
  filter (λ a, Tables.a_id a = id0) (Tables.accounts st) = a :: k →
  db_storeQuery (SelectAccountByID id0) st
  = (Some {| row := Tables.account_columns a 0;
             pending := (λ a, Tables.account_columns a 0) <$> k |}, st).
Proof.
  intros Hup Hf. unfold db_storeQuery, Tables.store_database.
  rewrite Hup. cbn [Tables.select]. by rewrite Hf.
Qed.

Lemma corrected_consistent now acc :
  uint32_t now ≠ 0 → consistent (corrected now acc).
Proof.
  intros Hnow. unfold consistent, corrected. cbn. split; [lia|].
  by case_decide.
Qed.

(** X15. Loading by id settles: on a writable store, with a valid 32-bit
    id, once [loadByID] has reported success a second [loadByID] over the
    record it returned reports success with the very same record, hands the
    store the two fetches and no statement, logs nothing and leaves the
    store as the first load left it. (The clock is assumed not to read 0 in
    32 bits and not to move between the two.) *)
Theorem loadByID_twice (id0 : Z) (acc acc1 : AccountInfo)
    (w w1 : @World Tables.Store) :
  0 ≤ id0 < 2 ^ 32 →
  Tables.writable (database w) = true →
  uint32_t (clock w) ≠ 0 →
  loadByID id0 acc w = ((true, acc1), w1) →
  ∃ w2,
    loadByID id0 acc1 w1 = ((true, acc1), w2) ∧
    calls w2 = calls w1 ++ [Fetch (SelectAccountByID id0);
                            Fetch (SelectPlayers id0)] ∧
    logger w2 = logger w1 ∧
    database w2 = database w1.
Proof.
  intros Hid Hwr Hclock Hload. unfold loadByID in *.
  set (st := database w) in *.
  destruct (Tables.reachable st) eqn:Hup; cycle 1.
  { rewrite (load_none _ _ _ st) in Hload; [done|].
    unfold db_storeQuery, Tables.store_database. fold st. by rewrite Hup. }
  destruct (filter (λ a, Tables.a_id a = id0) (Tables.accounts st))
    as [|a k] eqn:Hf.
  { rewrite (load_none _ _ _ st) in Hload; [done|].
    unfold db_storeQuery, Tables.store_database. fold st.
    rewrite Hup. cbn [Tables.select]. by rewrite Hf. }
  assert (Tables.a_id a = id0) as Ha.
  { assert (a ∈ filter (λ a, Tables.a_id a = id0) (Tables.accounts st)) as Hin
      by (rewrite Hf; left).
    by apply list_elem_of_filter in Hin as [? _]. }
  pose proof (select_account_first st id0 a k Hup Hf) as E.
  rewrite (load_some _ _ _ _ _ E) in Hload.
  set (M0 := mapped _ (clock w) acc) in Hload.
  assert (id M0 = id0) as HidM.
  { subst M0. rewrite account_columns_mapped. cbn. rewrite Ha.
    by apply uint32_t_small. }
  destruct (decide (consistent M0)) as [Hc|Hn].
  - (* nothing to reconcile *)
    rewrite (setupLoyaltyInfo_consistent _ _ Hc) in Hload.
    destruct (db_storeQuery (SelectPlayers (id M0)) st)
      as [[presult|] db] eqn:Ep; cycle 1.
    { by rewrite (loadAccountPlayers_none M0 _ db) in Hload. }
    assert (db = st) as ->.
    { unfold db_storeQuery, Tables.store_database in Ep.
      by injection Ep as _ <-. }
    rewrite (loadAccountPlayers_some M0 _ presult st) in Hload by done.
    injection Hload as Hacc1 Hw1.
    eexists. split.
    + eapply (load_again _ acc1 M0 w1 _ st presult st (players acc)).
      * subst w1. exact E.
      * subst w1 M0. cbn [clock after_fetch].
        by rewrite !account_columns_mapped.
      * done.
      * done.
      * subst acc1. by destruct M0.
    + subst w1. by rewrite HidM.
  - (* the first load wrote the record back *)
    rewrite (setupLoyaltyInfo_corrected _ _ Hn) in Hload.
    change (clock (after_fetch (SelectAccountByID id0) st w))
      with (clock w) in Hload.
    set (C := corrected (clock w) M0) in Hload.
    assert (id C = id0) as HidC by done.
    set (st' := Tables.apply (save_statement C) st).
    rewrite (save_run C _ true st') in Hload; cycle 1.
    { unfold db_executeQuery, Tables.store_database.
      cbn [database after_fetch]. fold st. by rewrite Hup, Hwr. }
    cbn [snd] in Hload.
    destruct (db_storeQuery (SelectPlayers (id C)) st')
      as [[presult|] db] eqn:Ep; cycle 1.
    { by rewrite (loadAccountPlayers_none C _ db) in Hload. }
    assert (db = st') as ->.
    { unfold db_storeQuery, Tables.store_database in Ep.
      by injection Ep as _ <-. }
    rewrite (loadAccountPlayers_some C _ presult st') in Hload by done.
    injection Hload as Hacc1 Hw1.
    assert (filter (λ a, Tables.a_id a = id0) (Tables.accounts st')
            = Tables.update_account (accountType C) (premiumRemainingDays C)
                (premiumLastDay C) (creationTime C) (premiumDaysPurchased C)
              <$> a :: k) as Hf'.
    { subst st'. cbn [Tables.apply save_statement Tables.set_accounts
                      Tables.accounts].
      rewrite HidC, where_id_filter_same by done. by rewrite Hf. }
    rewrite fmap_cons in Hf'.
    pose proof (select_account_first st' id0 _ _ Hup Hf') as E'.
    eexists. split.
    + eapply (load_again _ acc1 C w1 _ st' presult st' (players acc)).
      * subst w1. exact E'.
      * subst w1. cbn [clock after_fetch].
        rewrite account_columns_mapped. cbn [Tables.update_account
          Tables.a_id Tables.a_type Tables.a_lastday Tables.a_creation
          Tables.a_premdays_purchased].
        subst C M0. rewrite account_columns_mapped.
        unfold corrected, set_players, set_creationTime,
          set_premiumDaysPurchased.
        cbn [id premiumRemainingDays premiumLastDay accountType players
             sessionExpires premiumDaysPurchased creationTime].
        rewrite !time_t_idemp, uint16_t_idemp.
        f_equal.
        -- apply uint32_t_small.
           pose proof (uint32_t_range (Tables.a_premdays_purchased a)).
           match goal with |- context [Z.max _ (uint32_t ?x)] =>
             pose proof (uint32_t_range x) end.
           lia.
        -- case_decide; apply uint32_t_idemp.
      * by apply corrected_consistent.
      * done.
      * subst acc1. done.
    + subst w1. by rewrite HidC.
Qed.

(** ** Saving, then loading *)

(** Reconciliation on the table store leaves the character table and the
    connection as they are. *)
Lemma setupLoyaltyInfo_table acc (w : @World Tables.Store) :
  let st' := database (setupLoyaltyInfo acc w).2 in
  Tables.players st' = Tables.players (database w) ∧
  Tables.reachable st' = Tables.reachable (database w).
Proof.
  destruct (decide (consistent acc)) as [Hc|Hn].
  - by rewrite (setupLoyaltyInfo_consistent _ _ Hc).
  - rewrite (setupLoyaltyInfo_corrected _ _ Hn). cbn [snd].
    destruct (db_executeQuery (save_statement (corrected (clock w) acc))
                (database w)) as [successful db] eqn:E.
    rewrite (save_run _ _ _ _ E). cbn [snd database].
    unfold db_executeQuery, Tables.store_database in E.
    destruct (_ && _) in E; by injection E as <- <-.
Qed.

(** The purchased days and the creation time of a loaded record, from the
    row it was read off. *)
Lemma load_true_reconciled {DB : Type} `{!Database DB} query acc
    (w : @World DB) acc' w' :
  load query acc w = ((true, acc'), w') →
  ∃ result db,
    db_storeQuery query (database w) = (Some result, db) ∧
    premiumRemainingDays acc'
      = premiumRemainingDays (mapped result (clock w) acc) ∧
    premiumDaysPurchased acc'
      = Z.max (premiumDaysPurchased (mapped result (clock w) acc))
              (premiumRemainingDays (mapped result (clock w) acc)) ∧
    (creationTime (mapped result (clock w) acc) ≠ 0 →
     creationTime acc' = creationTime (mapped result (clock w) acc)).
Proof.
  intros Hload.
  destruct (load_true_inv _ _ _ _ _ Hload) as (result & db & m & E & ->).
  exists result, db. split; [done|].
  set (M0 := mapped result (clock w) acc).
  cbn [set_players premiumRemainingDays premiumDaysPurchased creationTime].
  destruct (decide (consistent M0)) as [[Hp Hc]|Hn].
  - rewrite setupLoyaltyInfo_consistent by done. cbn [fst].
    repeat split; try done; lia.
  - rewrite (setupLoyaltyInfo_corrected _ _ Hn). cbn [fst].
    unfold corrected. cbn. repeat split. intros Hc. by rewrite decide_False.
Qed.

(** X16. Saving, then loading by id: when [save] of a record has succeeded
    and a following [loadByID] of the record's id reports success, the
    loaded type and expiry are the saved ones (as 16-bit and [time_t]
    numbers), the loaded creation time is the saved one unless that is 0,
    the loaded purchased days are at least the saved ones, and the remaining
    days are recomputed from the saved expiry, whatever remaining days were
    saved. *)
Theorem save_then_loadByID (acc acc0 acc' : AccountInfo)
    (w w' : @World Tables.Store) :
  (save acc w).1 = true →
  loadByID (id acc) acc0 (save acc w).2 = ((true, acc'), w') →
  let now := clock w in
  accountType acc' = uint16_t (accountType acc) ∧
  premiumLastDay acc' = time_t (premiumLastDay acc) ∧
  premiumRemainingDays acc' =
    uint32_t (if bool_decide (time_t (premiumLastDay acc) > now)
              then time_t (time_t (premiumLastDay acc) - now) `quot` 86400
              else 0) ∧
  premiumDaysPurchased acc' >= uint32_t (premiumDaysPurchased acc) ∧
  (uint32_t (creationTime acc) ≠ 0 →
   creationTime acc' = uint32_t (creationTime acc)).
Proof.
  intros Hsaved Hload now. unfold loadByID in Hload.
  destruct (db_executeQuery (save_statement acc) (database w))
    as [successful db] eqn:Es.
  rewrite (save_run _ _ _ _ Es) in Hsaved, Hload. cbn [fst snd] in *.
  subst successful.
  unfold db_executeQuery, Tables.store_database in Es.
  destruct (_ && _) in Es; [|done]. injection Es as <-.
  pose proof (load_true_table _ _ _ _ _ Hload)
    as (result & Hin & _ & Ht & Hl & _).
  pose proof (load_true_reconciled _ _ _ _ _ Hload)
    as (result' & db' & E & Hr & Hp & Hc).
  assert (row result' ∈
            Tables.select (SelectAccountByID (id acc))
              (Tables.apply (save_statement acc) (database w))) as Hin'.
  { unfold db_storeQuery, Tables.store_database in E.
    cbn [database] in E. destruct (Tables.reachable _); [|done].
    injection E as E _. by apply handle_head. }
  assert (∀ r : DBResult,
            row r ∈ Tables.select (SelectAccountByID (id acc))
                      (Tables.apply (save_statement acc) (database w)) →
            ∃ a, mapped r now acc0 =
                 mapped {| row := Tables.account_columns
                                    (Tables.update_account (accountType acc)
                                       (premiumRemainingDays acc)
                                       (premiumLastDay acc) (creationTime acc)
                                       (premiumDaysPurchased acc) a) 0;
                           pending := [] |} now acc0) as Hrow.
  { intros r Hr0.
    cbn [Tables.select Tables.apply save_statement Tables.set_accounts
         Tables.accounts] in Hr0.
    rewrite where_id_filter_same in Hr0 by done.
    apply list_elem_of_fmap in Hr0 as (a' & Hrow & Ha').
    apply list_elem_of_fmap in Ha' as (a & -> & Ha).
    exists a. by apply mapped_row. }
  cbn [clock] in *. fold now in Ht, Hl, Hr, Hp, Hc.
  destruct (Hrow result Hin) as (a & Hm).
  rewrite Hm, account_columns_mapped in Ht, Hl. cbn in Ht, Hl.
  destruct (Hrow result' Hin') as (a2 & Hm2).
  rewrite Hm2, account_columns_mapped in Hr, Hp, Hc. cbn in Hr, Hp, Hc.
  repeat split; try done. lia.
Qed.

(** X17. An account without characters cannot be loaded: on a store that
    can be reached, for a valid 32-bit id of an account that exists but
    owns no row of the character table, [loadByID] reports failure, the
    last line of the log being that of the player fetch, although the
    record handed back carries the account's id. *)
Theorem loadByID_without_characters (id0 : Z) (acc : AccountInfo)
    (w : @World Tables.Store) :
  0 ≤ id0 < 2 ^ 32 →
  Tables.reachable (database w) = true →
  (∃ a, a ∈ Tables.accounts (database w) ∧ Tables.a_id a = id0) →
  (∀ p, p ∈ Tables.players (database w) → Tables.p_account_id p ≠ id0) →
  let run := loadByID id0 acc w in
  run.1.1 = false ∧
  id run.1.2 = id0 ∧
  last (logger run.2) = Some (FailedToLoadPlayers id0).
Proof.
  intros Hid Hup (a0 & Ha0 & Hida0) Hnone run. subst run. unfold loadByID.
  destruct (filter_non_empty (λ a, Tables.a_id a = id0) _ a0 Ha0 Hida0)
    as (a & k & Hf).
  assert (Tables.a_id a = id0) as Ha.
  { assert (a ∈ filter (λ a, Tables.a_id a = id0)
                  (Tables.accounts (database w))) as Hin
      by (rewrite Hf; left).
    by apply list_elem_of_filter in Hin as [? _]. }
  rewrite (load_some _ _ _ _ _ (select_account_first _ id0 a k Hup Hf)).
  set (M0 := mapped _ (clock w) acc).
  set (w0 := after_fetch _ _ w).
  assert (id M0 = id0) as HidM.
  { subst M0. rewrite account_columns_mapped. cbn. rewrite Ha.
    by apply uint32_t_small. }
  destruct (setupLoyaltyInfo_frame M0 w0) as (Hi & _).
  destruct (setupLoyaltyInfo_table M0 w0) as (Hpl & Hre).
  destruct (setupLoyaltyInfo M0 w0) as [acc1 w1]. cbn [fst snd] in *.
  rewrite HidM in Hi.
  rewrite (loadAccountPlayers_none acc1 w1 (database w1)).
  - cbn. rewrite Hi. split; [done|]. split; [done|]. apply last_snoc.
  - unfold db_storeQuery, Tables.store_database.
    rewrite Hre. cbn [w0 after_fetch database]. rewrite Hup.
    cbn [Tables.select]. rewrite Hpl. cbn [w0 after_fetch database].
    rewrite Hi. by rewrite filter_none by done.
Qed.

(** ** Remaining days never overstate the expiry *)

(** X18. The remaining days of a loaded record never reach past the
    expiry: they are not negative, and that many whole days from the clock's
    reading do not lie after premiumLastDay unless there are none; when the
    day count fits 32 bits, one more day would lie after it. (The clock is
    assumed not to read a time before the epoch.) *)
Theorem load_days_within_expiry {DB : Type} `{!Database DB} query acc
    (w : @World DB) acc' w' :
  0 ≤ clock w →
  load query acc w = ((true, acc'), w') →
  let now := clock w in
  0 ≤ premiumRemainingDays acc' ∧
  premiumRemainingDays acc' * 86400 ≤ Z.max 0 (premiumLastDay acc' - now) ∧
  ((premiumLastDay acc' - now) `div` 86400 < 2 ^ 32 →
   premiumLastDay acc' - now < (premiumRemainingDays acc' + 1) * 86400).
Proof.
  intros Hnow Hload now.
  destruct (load_days _ _ _ _ _ Hnow Hload) as [_ Hdays]. fold now in Hdays.
  set (d := (premiumLastDay acc' - now) `div` 86400) in *.
  pose proof (uint32_t_range (Z.max 0 d)) as Hrange.
  assert (uint32_t (Z.max 0 d) ≤ Z.max 0 d) as Hle.
  { unfold uint32_t. apply Z.mod_le; lia. }
  pose proof (Z.mul_div_le (premiumLastDay acc' - now) 86400) as Hfloor.
  pose proof (Z.mod_pos_bound (premiumLastDay acc' - now) 86400) as Hmod.
  pose proof (Z.div_mod (premiumLastDay acc' - now) 86400) as Hdm.
  fold d in Hfloor, Hdm.
  rewrite Hdays. split; [lia|]. split.
  - destruct (Z.max_spec 0 d) as [[Hd Hmax]|[Hd Hmax]]; lia.
  - intros Hfit. rewrite uint32_t_small by lia. lia.
Qed.

(** ** The character list and the ownership check against the table *)

Lemma player_row_deletion (p : Tables.PlayerRow) :
  row_deletion (list_to_map [ ("name", SqlText (Tables.p_name p));
                              ("deletion", SqlInt (Tables.p_deletion p)) ])
  = uint64_t (Tables.p_deletion p).
Proof.
  unfold row_deletion, getNumber. cbn [row list_to_map foldr fst snd].
  by rewrite lookup_insert_ne, lookup_insert_eq by done.
Qed.

Lemma handle_rows rows result :
  Tables.handle rows = Some result → rows_of result = rows.
Proof. destruct rows; [done|]. by intros [= <-]. Qed.

(** X19. The player set against the character table: after a
    [loadAccountPlayers] that reports success, the names in the record's
    player set are those it held before together with the names of the rows
    of the character table that belong to the record's id and have a
    deletion timestamp of 0. *)
Theorem loadAccountPlayers_live_characters (acc acc' : AccountInfo)
    (w w' : @World Tables.Store) :
  loadAccountPlayers acc w = ((true, acc'), w') →
  ∀ name,
    name ∈ dom (players acc') ↔
    name ∈ dom (players acc)
    ∨ ∃ p, p ∈ Tables.players (database w) ∧
           Tables.p_account_id p = id acc ∧
           uint64_t (Tables.p_deletion p) = 0 ∧
           Tables.p_name p = name.
Proof.
  intros Hrun name.
  destruct (db_storeQuery (SelectPlayers (id acc)) (database w))
    as [[result|] db] eqn:E; cycle 1.
  { by rewrite (loadAccountPlayers_none _ _ _ E) in Hrun. }
  rewrite (loadAccountPlayers_some _ _ _ _ E) in Hrun.
  injection Hrun as <- _. cbn [players set_players].
  unfold db_storeQuery, Tables.store_database in E.
  destruct (Tables.reachable (database w)); [|done].
  injection E as E _. apply handle_rows in E. rewrite E.
  rewrite foldl_try_emplace, dom_union_L, elem_of_union.
  rewrite dom_list_to_map_L, elem_of_list_to_set, list_elem_of_fmap.
  cbn [Tables.select]. unfold surviving.
  split; (intros [?|Hin]; [by left|right]).
  - destruct Hin as ([n d] & -> & Hin).
    apply list_elem_of_fmap in Hin as (r & [= -> ->] & Hr).
    apply list_elem_of_filter in Hr as [Hlive Hr].
    apply list_elem_of_fmap in Hr as (p & -> & Hp).
    rewrite merge_sort_Permutation in Hp.
    apply list_elem_of_filter in Hp as [Hacc Hp].
    pose proof (player_row_deletion p) as Hd.
    pose proof (player_row_name p) as Hn.
    cbn [list_to_map foldr fst snd] in Hd, Hn.
    cbv beta in Hlive. rewrite Hd in Hlive. rewrite Hn.
    by exists p.
  - destruct Hin as (p & Hp & Hacc & Hlive & <-).
    eexists (_, _). split; [|apply list_elem_of_fmap; eexists; split;
                               [reflexivity|]].
    + by rewrite player_row_name.
    + apply list_elem_of_filter. split; [by rewrite player_row_deletion|].
      apply list_elem_of_fmap. exists p. split; [done|].
      rewrite merge_sort_Permutation. by apply list_elem_of_filter.
Qed.

(** X20. When the ownership check logs: on the table store
    [getCharacterByAccountIdAndName] logs its error line exactly when it
    gets no handle, that is when the store cannot be reached or no row has
    the account id and the name; with two or more such rows it answers false
    without a line in the log. *)
Theorem getCharacterByAccountIdAndName_log (id : Z) (name : string)
    (w : @World Tables.Store) :
  let run := getCharacterByAccountIdAndName id name w in
  let matching :=
    filter (λ p, Tables.p_account_id p = id ∧ Tables.p_name p = name)
      (Tables.players (database w)) in
  (Tables.reachable (database w) = false ∨ matching = [] →
   run.1 = false ∧ logger run.2 = logger w ++ [FailedToGetCharacter name id]) ∧
  (Tables.reachable (database w) = true → matching ≠ [] →
   logger run.2 = logger w) ∧
  (Tables.reachable (database w) = true → (2 ≤ length matching)%nat →
   run.1 = false).
Proof.
  intros run matching. subst run.
  assert (Tables.select (SelectPlayerID id (escapeString name)) (database w)
          = (λ p, {[ "id" := SqlInt (Tables.p_id p) ]}) <$> matching) as Hsel.
  { cbn [Tables.select escapeString]. f_equal. apply list_filter_iff.
    intros p. unfold Tables.owned.
    by rewrite andb_True, !bool_decide_spec. }
  unfold getCharacterByAccountIdAndName, mbind, M_bind, storeQuery.
  unfold db_storeQuery, Tables.store_database. rewrite Hsel.
  split; [|split].
  - intros [->| ->]; [done|]. by destruct (Tables.reachable _).
  - intros -> Hne. by destruct matching.
  - intros -> Hlen. destruct matching as [|p [|q l]]; cbn in *; try lia.
    cbn. unfold countResults. cbn [pending length].
    rewrite bool_decide_eq_false_2; [done|lia].
Qed.

(** ** The column of a ledger *)

Lemma coinTypeToColumn_injective (enumToValue : CoinType → Z) (c : CoinType) :
  Inj (=) (=) enumToValue →
  coinTypeToColumn enumToValue !! enumToValue c =
  Some (match c with
        | Normal => "coins"
        | Tournament => "tournament_coins"
        | Transferable => "coins_transferable"
        end).
Proof.
  intros Hinj. unfold coinTypeToColumn. cbn [list_to_map foldr fst snd].
  destruct c.
  - apply lookup_insert_eq.
  - rewrite lookup_insert_ne by (by intros ?%Hinj). apply lookup_insert_eq.
  - rewrite !lookup_insert_ne by (by intros ?%Hinj). apply lookup_insert_eq.
Qed.

(** X21. Each ledger has its own column when the three enumerators have
    distinct values: [setCoins] on a ledger hands the store exactly one
    statement, the update of that ledger's column (coins, tournament_coins
    or coins_transferable) to the amount for the id, returns the store's
    outcome and logs one line exactly on failure; [getCoins] fetches that
    same column and answers with its 32-bit value, or with failure and the
    caller's balance when there is no handle. *)
Theorem ledger_column {DB : Type} `{!Database DB} (enumToValue : CoinType → Z)
    (c : CoinType) (id amount coins : Z) (w : @World DB) :
  Inj (=) (=) enumToValue →
  let column :=
    match c with
    | Normal => "coins"
    | Tournament => "tournament_coins"
    | Transferable => "coins_transferable"
    end in
  let written := db_executeQuery (UpdateCoins column amount id) (database w) in
  let fetched := db_storeQuery (SelectCoins column id) (database w) in
  setCoins enumToValue id (enumToValue c) amount w =
    (written.1,
     {| database := written.2;
        logger := logger w ++
                  (if written.1 then [] else [ErrorSettingCoins id amount]);
        clock := clock w;
        calls := calls w ++ [Execute (UpdateCoins column amount id)] |}) ∧
  getCoins enumToValue id (enumToValue c) coins w =
    (match fetched.1 with
     | Some result => (true, getNumber uint32_t result column)
     | None => (false, coins)
     end,
     {| database := fetched.2; logger := logger w; clock := clock w;
        calls := calls w ++ [Fetch (SelectCoins column id)] |}).
Proof.
  intros Hinj column written fetched.
  pose proof (coinTypeToColumn_injective enumToValue c Hinj) as Hl.
  fold column in Hl. split.
  - apply contains_lookup in Hl as [Hc Ht]. unfold setCoins.
    rewrite Hc, Ht. cbn [negb]. unfold mbind, M_bind, executeQuery.
    subst written. destruct (db_executeQuery _ (database w)) as [[] db];
      cbn; by rewrite ?(right_id_L [] (++)).
  - subst fetched.
    destruct (db_storeQuery (SelectCoins column id) (database w))
      as [result db] eqn:E.
    by rewrite (getCoins_run _ _ _ _ _ _ _ _ Hl E).
Qed.

(** * The further properties on the populated store *)

Lemma load_consistent_writes_nothing_account3 :
  ∃ acc' w',
    load (SelectAccountByID 3) Scenario.blank (Scenario.world Scenario.store)
    = ((true, acc'), w') ∧
    premiumDaysPurchased acc' = 30 ∧
    calls w' = [Fetch (SelectAccountByID 3); Fetch (SelectPlayers 3)] ∧
    database w' = Scenario.store.
Proof.
  destruct (load_consistent_writes_nothing (SelectAccountByID 3)
              Scenario.blank (Scenario.world Scenario.store)
              {| row := Tables.account_columns Scenario.account3 0;
                 pending := [] |}
              Scenario.store
              {| row := default ∅ (head (Tables.select (SelectPlayers 3)
                                           Scenario.store));
                 pending := tail (Tables.select (SelectPlayers 3)
                                    Scenario.store) |}
              Scenario.store)
    as (acc' & w' & Hrun & _ & Hp & _ & Hcalls & _ & Hdb).
  - reflexivity.
  - vm_compute. discriminate.
  - vm_compute. discriminate.
  - vm_compute. reflexivity.
  - exists acc', w'. split; [exact Hrun|].
    split; [exact Hp|]. split; [exact Hcalls|exact Hdb].
Defined.

Lemma load_players_failure_keeps_record_account7 :
  let run :=
    load (SelectAccountByID 7) Scenario.blank
      (Scenario.world Scenario.no_characters) in
  run.1.1 = false ∧ id run.1.2 = 7.
Proof.
  set (w0 := after_fetch (SelectAccountByID 7) Scenario.no_characters
               (Scenario.world Scenario.no_characters)).
  destruct (load_players_failure_keeps_record (SelectAccountByID 7)
              Scenario.blank (Scenario.world Scenario.no_characters)
              {| row := Tables.account_columns Scenario.account7 0;
                 pending := [] |}
              Scenario.no_characters
              (setupLoyaltyInfo
                 (mapped {| row := Tables.account_columns Scenario.account7 0;
                            pending := [] |} Scenario.now Scenario.blank)
                 w0).1
              (setupLoyaltyInfo
                 (mapped {| row := Tables.account_columns Scenario.account7 0;
                            pending := [] |} Scenario.now Scenario.blank)
                 w0).2
              (database
                 (setupLoyaltyInfo
                    (mapped {| row := Tables.account_columns
                                        Scenario.account7 0;
                               pending := [] |} Scenario.now Scenario.blank)
                    w0).2))
    as (w' & Hrun & Hi & _).
  - reflexivity.
  - vm_compute. reflexivity.
  - vm_compute. reflexivity.
  - intros run. subst run. rewrite Hrun. split; [reflexivity|].
    cbn [fst snd]. rewrite Hi. vm_compute. reflexivity.
Defined.

Lemma load_takes_only_players_account7 :
  load (SelectAccountByID 7) Scenario.blank (Scenario.world Scenario.store)
  = load (SelectAccountByID 7) Scenario.reconciled7
      (Scenario.world Scenario.store).
Proof.
  apply (load_takes_only_players (SelectAccountByID 7) Scenario.blank
           Scenario.reconciled7 (Scenario.world Scenario.store)).
  - vm_compute. eexists. reflexivity.
  - reflexivity.
Defined.

Lemma setCoins_getCoins_account3 :
  let w := Scenario.world Scenario.store in
  let type := Scenario.enumToValue Normal in
  (setCoins Scenario.enumToValue 3 type 100 w).1 = true ∧
  (getCoins Scenario.enumToValue 3 type 0
     (setCoins Scenario.enumToValue 3 type 100 w).2).1
  = (true, uint32_t 100).
Proof.
  apply (setCoins_getCoins Scenario.enumToValue Normal 3 100 0
           (Scenario.world Scenario.store)).
  - reflexivity.
  - exists Scenario.account3. split; [|reflexivity].
    right. left.
Defined.

Lemma setCoins_other_balances_account3 :
  let w := Scenario.world Scenario.store in
  (getCoins Scenario.enumToValue 3 2 0
     (setCoins Scenario.enumToValue 3 1 100 w).2).1
  = (getCoins Scenario.enumToValue 3 2 0 w).1.
Proof.
  apply (setCoins_other_balances Scenario.enumToValue 3 1 100 3 2 0
           (Scenario.world Scenario.store)).
  right. discriminate.
Defined.

Lemma getCoins_nothing_to_read_account99 :
  (getCoins Scenario.enumToValue 99 (Scenario.enumToValue Tournament) 5
     (Scenario.world Scenario.store)).1 = (false, 5).
Proof.
  refine (proj1 (getCoins_nothing_to_read Scenario.enumToValue Tournament 99 5
                   (Scenario.world Scenario.store) _)).
  right. intros a Ha. vm_compute in Ha.
  apply elem_of_cons in Ha as [->|Ha]; [discriminate|].
  apply list_elem_of_singleton in Ha as ->. discriminate.
Defined.

Lemma getPassword_first_match_account7 :
  (getPassword 7 EmptyString (Scenario.world Scenario.store)).1
  = (true, "hunter2").
Proof.
  refine (proj1 (proj1 (proj2
            (getPassword_first_match 7 EmptyString
               (Scenario.world Scenario.store) _))
            Scenario.account7 [] _)).
  - reflexivity.
  - vm_compute. reflexivity.
Defined.

Lemma loadBySession_finds_the_session_three :
  let run :=
    loadBySession Scenario.transformToSHA1 "token-of-three" Scenario.blank
      (Scenario.world Scenario.store) in
  ∃ a s,
    a ∈ Tables.accounts Scenario.store ∧
    s ∈ Tables.account_sessions Scenario.store ∧
    Tables.s_id s = Scenario.transformToSHA1 "token-of-three" ∧
    Tables.s_account_id s = Tables.a_id a ∧
    id run.1.2 = uint32_t (Tables.a_id a) ∧
    sessionExpires run.1.2 = time_t (Tables.s_expires s).
Proof.
  intros run.
  apply (loadBySession_finds_the_session Scenario.transformToSHA1
           "token-of-three" Scenario.blank run.1.2
           (Scenario.world Scenario.store) run.2).
  vm_compute. reflexivity.
Defined.

Lemma loadByID_twice_account7 :
  let first := loadByID 7 Scenario.blank (Scenario.world Scenario.store) in
  ∃ w2,
    loadByID 7 first.1.2 first.2 = ((true, first.1.2), w2) ∧
    calls w2 = calls first.2 ++ [Fetch (SelectAccountByID 7);
                                 Fetch (SelectPlayers 7)] ∧
    logger w2 = logger first.2 ∧
    database w2 = database first.2.
Proof.
  intros first.
  apply (loadByID_twice 7 Scenario.blank first.1.2
           (Scenario.world Scenario.store) first.2).
  - vm_compute. split; [discriminate|reflexivity].
  - reflexivity.
  - vm_compute. discriminate.
  - vm_compute. reflexivity.
Defined.

Lemma save_then_loadByID_account7 :
  let saved := save Scenario.reconciled7 (Scenario.world Scenario.store) in
  let run := loadByID 7 Scenario.blank saved.2 in
  accountType run.1.2 = uint16_t 1 ∧
  premiumLastDay run.1.2 = time_t (Scenario.now + 432000).
Proof.
  intros saved run.
  destruct (save_then_loadByID Scenario.reconciled7 Scenario.blank run.1.2
              (Scenario.world Scenario.store) run.2)
    as (Ht & Hl & _).
  - vm_compute. reflexivity.
  - vm_compute. reflexivity.
  - split; [exact Ht|exact Hl].
Defined.

Lemma loadByID_without_characters_account7 :
  let run :=
    loadByID 7 Scenario.blank (Scenario.world Scenario.no_characters) in
  run.1.1 = false ∧
  id run.1.2 = 7 ∧
  last (logger run.2) = Some (FailedToLoadPlayers 7).
Proof.
  apply (loadByID_without_characters 7 Scenario.blank
           (Scenario.world Scenario.no_characters)).
  - vm_compute. split; [discriminate|reflexivity].
  - reflexivity.
  - exists Scenario.account7. split; [left|reflexivity].
  - intros p Hp. vm_compute in Hp. by apply elem_of_nil in Hp.
Defined.

Lemma load_days_within_expiry_account7 :
  let run :=
    load (SelectAccountByID 7) Scenario.blank (Scenario.world Scenario.store) in
  0 ≤ premiumRemainingDays run.1.2 ∧
  premiumRemainingDays run.1.2 * 86400
  ≤ Z.max 0 (premiumLastDay run.1.2 - Scenario.now).
Proof.
  intros run.
  destruct (load_days_within_expiry (SelectAccountByID 7) Scenario.blank
              (Scenario.world Scenario.store) run.1.2 run.2)
    as (Hpos & Hle & _).
  - vm_compute. discriminate.
  - vm_compute. reflexivity.
  - split; [exact Hpos|exact Hle].
Defined.

Lemma loadAccountPlayers_live_characters_account7 :
  let run :=
    loadAccountPlayers Scenario.reconciled7 (Scenario.world Scenario.store) in
  "Bob" ∈ dom (players run.1.2) ↔
  "Bob" ∈ dom (players Scenario.reconciled7)
  ∨ ∃ p, p ∈ Tables.players Scenario.store ∧
         Tables.p_account_id p = 7 ∧
         uint64_t (Tables.p_deletion p) = 0 ∧
         Tables.p_name p = "Bob".
Proof.
  intros run.
  apply (loadAccountPlayers_live_characters Scenario.reconciled7 run.1.2
           (Scenario.world Scenario.store) run.2).
  vm_compute. reflexivity.
Defined.

Lemma enumToValue_injective : Inj (=) (=) Scenario.enumToValue.
Proof. intros [] [] Heq; done. Qed.

Lemma ledger_column_tournament :
  let w := Scenario.world Scenario.store in
  calls (setCoins Scenario.enumToValue 3 2 50 w).2
  = [Execute (UpdateCoins "tournament_coins" 50 3)].
Proof.
  intros w.
  rewrite (proj1 (ledger_column Scenario.enumToValue Tournament 3 50 0 w
                    enumToValue_injective)).
  reflexivity.
Defined.
